(** * Security orchestration platform: matcher and action dispatcher

    A shallow embedding of
    [backend-implementation/docker/siem/orchestrator/src/orchestrator.py]
    (class [SecurityOrchestrator]) and the properties of its event-matching
    and action-dispatch pipeline.

    Python strings are modelled as [string] (sequences of 8-bit characters,
    so the model covers ASCII text), dictionaries as [gmap], and the
    [try]/[except] blocks of the source by a state-and-exception monad over
    an explicit world: the scripted behaviour of the collaborators
    (Elasticsearch, the Slack webhook, the wall clock) and the trace of the
    effects performed so far. *)

From Stdlib Require Import Ascii String.
From stdpp Require Import gmap strings list fin_maps pretty.

Local Open Scope nat_scope.

(** ** Python string operations *)

Module Str.

(** [c.lower()] on one ASCII character. *)
Definition lower_ascii (c : ascii) : ascii :=
  let n := nat_of_ascii c in
  if (65 <=? n) && (n <=? 90) then ascii_of_nat (n + 32) else c.

(** [c.upper()] on one ASCII character. *)
Definition upper_ascii (c : ascii) : ascii :=
  let n := nat_of_ascii c in
  if (97 <=? n) && (n <=? 122) then ascii_of_nat (n - 32) else c.

(** [s.lower()] *)
Fixpoint lower (s : string) : string :=
  match s with
  | EmptyString => EmptyString
  | String c s' => String (lower_ascii c) (lower s')
  end.

(** [s.upper()] *)
Fixpoint upper (s : string) : string :=
  match s with
  | EmptyString => EmptyString
  | String c s' => String (upper_ascii c) (upper s')
  end.

(** [s.startswith(t)] *)
Fixpoint startswith (t s : string) : bool :=
  match t, s with
  | EmptyString, _ => true
  | String _ _, EmptyString => false
  | String a t', String b s' => Ascii.eqb a b && startswith t' s'
  end.

(** [t in s] for two strings: [t] occurs in [s] as a contiguous block. *)
Fixpoint str_in (t s : string) : bool :=
  startswith t s ||
  match s with
  | EmptyString => false
  | String _ s' => str_in t s'
  end.

(** [s.endswith(t)] *)
Definition endswith (t s : string) : bool :=
  startswith (String.rev t) (String.rev s).

(** The mathematical reading of [t in s]. *)
Definition occurs_in (t s : string) : Prop :=
  ∃ a b, s = a +:+ t +:+ b.

(** Case-insensitive occurrence, as the specification words the trigger
    test: both sides are compared after case folding. *)
Definition occurs_in_nocase (t s : string) : Prop :=
  occurs_in (lower t) (lower s).

(** [f"{x}"] for an optional string: [None] prints as [None]. *)
Definition fmt_opt (x : option string) : string :=
  match x with
  | Some s => s
  | None => "None"
  end.

(** Python truthiness of an optional string: [None] and the empty string
    are falsy. *)
Definition truthy (x : option string) : bool :=
  match x with
  | Some (String _ _) => true
  | _ => false
  end.

(** [x or d] for an optional string. *)
Definition or_else (x : option string) (d : string) : string :=
  match x with
  | Some (String c s) => String c s
  | _ => d
  end.

End Str.

(** ** Data model (the pydantic models of the source) *)

(** A [datetime] value, field by field. *)
Record datetime := mk_datetime {
  year : nat; month : nat; day : nat;
  hour : nat; minute : nat; second : nat;
  microsecond : nat
}.

(** The ['@timestamp'] entry of a raw record as [datetime.fromisoformat]
    sees it: the key may be missing, hold a text the parser rejects
    (it raises [ValueError]), or hold the text of a date. *)
Inductive RawTimestamp :=
| TsAbsent
| TsInvalid (text : string)
| TsValid (text : string) (d : datetime).

(** A raw event record ([hit['_source']]): every key may be missing. *)
Record RawEvent := mk_raw {
  raw_timestamp : RawTimestamp;
  raw_event_type : option string;
  raw_security_severity : option string;
  raw_source : option string;
  raw_source_ip : option string;
  raw_username : option string;
  raw_message : option string;
  raw_tags : option (list string)
}.

Record SecurityEvent := mk_event {
  timestamp : datetime;
  event_type : string;
  severity : string;
  source : string;
  source_ip : option string;
  user : option string;
  description : string;
  raw_data : RawEvent;
  tags : list string
}.

Record IncidentResponse := mk_incident {
  incident_id : string;
  inc_severity : string;
  status : string;
  actions_taken : list string;
  inc_timestamp : datetime;
  resolved : bool
}.

(** One entry of [PlaybookConfig.actions], a dictionary read with
    [action.get('type')] and [action.get('params', {})]. *)
Record Action := mk_action {
  action_type : option string;
  action_params : option (gmap string string)
}.

Record PlaybookConfig := mk_playbook {
  name : string;
  triggers : list string;
  severity_threshold : string;
  actions : list Action;
  enabled : bool
}.

(** [d.get(k, default)] *)
Definition dict_get {V} (d : gmap string V) (k : string) (default : V) : V :=
  match d !! k with
  | Some v => v
  | None => default
  end.

(** ** Matcher: [event_matches_playbook] *)

Definition severity_levels : gmap string nat :=
  <["info" := 1]> (<["low" := 2]> (<["medium" := 3]> (<["high" := 4]>
    {["critical" := 5]}))).

Definition event_severity (event : SecurityEvent) : nat :=
  dict_get severity_levels (severity event) 0.

Definition threshold_severity (playbook : PlaybookConfig) : nat :=
  dict_get severity_levels (severity_threshold playbook) 5.

(** The severity gate: the playbook stays eligible unless
    [event_severity < threshold_severity]. *)
Definition severity_gate (event : SecurityEvent) (playbook : PlaybookConfig) : bool :=
  negb (event_severity event <? threshold_severity playbook).

(** The condition tested for one trigger. *)
Definition trigger_hits (event : SecurityEvent) (trigger : string) : bool :=
  Str.str_in trigger (event_type event)
  || Str.str_in trigger (Str.lower (description event))
  || existsb (fun tag => Str.str_in trigger tag) (tags event).

Definition event_matches_playbook (event : SecurityEvent) (playbook : PlaybookConfig) : bool :=
  if negb (enabled playbook) then false
  else if event_severity event <? threshold_severity playbook then false
  else existsb (trigger_hits event) (triggers playbook).

(** ** Dates as text *)

Definition digit (n : nat) : ascii := ascii_of_nat (48 + n mod 10).

(** [n] in decimal on exactly [width] digits, zero padded. *)
Fixpoint zpad (width n : nat) : string :=
  match width with
  | 0 => EmptyString
  | S w => zpad w (n / 10) +:+ String (digit n) EmptyString
  end.

(** [t.strftime('%Y%m%d-%H%M%S')] (years of four digits). *)
Definition strftime (t : datetime) : string :=
  zpad 4 (year t) +:+ zpad 2 (month t) +:+ zpad 2 (day t) +:+ "-" +:+
  zpad 2 (hour t) +:+ zpad 2 (minute t) +:+ zpad 2 (second t).

(** [t.isoformat()] without zone offset; the fraction is printed only when
    it is not zero. *)
Definition isoformat (t : datetime) : string :=
  zpad 4 (year t) +:+ "-" +:+ zpad 2 (month t) +:+ "-" +:+ zpad 2 (day t) +:+ "T" +:+
  zpad 2 (hour t) +:+ ":" +:+ zpad 2 (minute t) +:+ ":" +:+ zpad 2 (second t) +:+
  (if microsecond t =? 0 then EmptyString else "." +:+ zpad 6 (microsecond t)).

(** ** Collaborators, effects and the state of the process *)

Inductive Level := INFO | WARNING | ERROR.

(** The bodies handed to [es_client.index]. *)
Inductive Doc :=
| BlockDoc (ip_address : option string) (ts : datetime) (duration : string)
| DisableUserDoc (username : option string) (ts : datetime) (duration : string)
| IsolateHostDoc (ip_address : option string) (ts : datetime) (isolation_type : string)
| TicketDoc (title descr sev : string) (ip usr : option string)
            (ts : string) (assigned_to : string)
| IncidentDoc (incident : IncidentResponse).

(** Calls to the outside. *)
Inductive Call :=
| EsIndex (index : string) (body : Doc)
| EsSearch (index : string)
| HttpPost (url : string) (text : string).

(** What an observer of the process sees, in order: each call made with
    the exception it raised, if any; each log line; each sleep; each
    assignment [self.incidents[id] = incident], which the routes that read
    the store expose. *)
Inductive Effect :=
| Called (c : Call) (raised : option string)
| Logged (level : Level) (msg : string)
| Slept (seconds : nat)
| Stored (incident : IncidentResponse).

(** A file of the playbook directory: its name and what
    [yaml.safe_load] followed by the [PlaybookConfig] constructor makes of
    it, either the exception text or the playbook. *)
Record PlaybookFile := mk_file {
  filename : string;
  content : string + PlaybookConfig
}.

(** The orchestrator object together with its environment.
    - [playbooks], [incidents]: the attributes of [self];
    - [slack_webhook_url], [email_smtp_host]: module constants read from
      the process environment;
    - [playbooks_dir]: the listing of [/app/playbooks], [None] when the
      directory does not exist;
    - [faults]: outcome of the coming [index] and [post] calls, in order
      ([Some e]: the call raises [e]; past the end every call succeeds);
    - [searches]: outcome of the coming [search] calls (past the end a
      search has no hit);
    - [clock], [reads]: the successive readings of the wall clock and how
      many were taken;
    - [trace]: the effects performed so far, oldest first. *)
Record State := mk_state {
  playbooks : list PlaybookConfig;
  incidents : gmap string IncidentResponse;
  slack_webhook_url : string;
  email_smtp_host : string;
  playbooks_dir : option (list PlaybookFile);
  faults : list (option string);
  searches : list (string + list RawEvent);
  clock : nat → datetime;
  reads : nat;
  trace : list Effect
}.

Definition set_playbooks (v : list PlaybookConfig) (st : State) : State :=
  mk_state v (incidents st) (slack_webhook_url st) (email_smtp_host st)
    (playbooks_dir st) (faults st) (searches st) (clock st) (reads st) (trace st).

Definition set_faults (v : list (option string)) (st : State) : State :=
  mk_state (playbooks st) (incidents st) (slack_webhook_url st) (email_smtp_host st)
    (playbooks_dir st) v (searches st) (clock st) (reads st) (trace st).

Definition set_searches (v : list (string + list RawEvent)) (st : State) : State :=
  mk_state (playbooks st) (incidents st) (slack_webhook_url st) (email_smtp_host st)
    (playbooks_dir st) (faults st) v (clock st) (reads st) (trace st).

Definition set_reads (v : nat) (st : State) : State :=
  mk_state (playbooks st) (incidents st) (slack_webhook_url st) (email_smtp_host st)
    (playbooks_dir st) (faults st) (searches st) (clock st) v (trace st).

Definition emit (e : Effect) (st : State) : State :=
  mk_state (playbooks st) (incidents st) (slack_webhook_url st) (email_smtp_host st)
    (playbooks_dir st) (faults st) (searches st) (clock st) (reads st) (trace st ++ [e]).

(** ** The monad of the source's control flow: state and exceptions *)

Inductive Outcome (A : Type) :=
| Return (a : A)
| Raise (e : string).
Arguments Return {A} a.
Arguments Raise {A} e.

Definition M (A : Type) : Type := State → Outcome A * State.

Definition ret {A} (a : A) : M A := fun st => (Return a, st).

Definition raise {A} (e : string) : M A := fun st => (Raise e, st).

Definition bind {A B} (m : M A) (k : A → M B) : M B :=
  fun st =>
    match m st with
    | (Return a, st') => k a st'
    | (Raise e, st') => (Raise e, st')
    end.

(** [try: body except Exception as e: handler(e)] *)
Definition try_except {A} (body : M A) (handler : string → M A) : M A :=
  fun st =>
    match body st with
    | (Return a, st') => (Return a, st')
    | (Raise e, st') => handler e st'
    end.

Definition gets {A} (f : State → A) : M A := fun st => (Return (f st), st).

Definition modify (f : State → State) : M unit := fun st => (Return tt, f st).

Notation "'let!' x ':=' m 'in' k" := (bind m (fun x => k))
  (at level 10, x name, m at level 100, k at level 200).
Notation "m '>>' k" := (bind m (fun _ => k))
  (at level 90, right associativity).

(** [for x in xs: body], threading the local variables the body rebinds. *)
Fixpoint for_ {A L} (xs : list A) (body : L → A → M L) (locals : L) : M L :=
  match xs with
  | [] => ret locals
  | x :: xs' => let! locals' := body locals x in for_ xs' body locals'
  end.

(** *** Primitive effects *)

Definition log (level : Level) (msg : string) : M unit :=
  modify (emit (Logged level msg)).

(** [datetime.now()] *)
Definition now : M datetime :=
  fun st => (Return (clock st (reads st)), set_reads (S (reads st)) st).

(** [asyncio.sleep(seconds)] *)
Definition sleep (seconds : nat) : M unit :=
  modify (emit (Slept seconds)).

(** A call to a collaborator that returns nothing of interest:
    [es_client.index] or an HTTP post followed by [raise_for_status]. *)
Definition call (c : Call) : M unit :=
  fun st =>
    match faults st with
    | [] => (Return tt, emit (Called c None) st)
    | None :: rest => (Return tt, emit (Called c None) (set_faults rest st))
    | Some e :: rest => (Raise e, emit (Called c (Some e)) (set_faults rest st))
    end.

(** [es_client.search(index=..., body=query)], giving the [_source] of
    each hit. *)
Definition es_search (index : string) : M (list RawEvent) :=
  fun st =>
    match searches st with
    | [] => (Return [], emit (Called (EsSearch index) None) st)
    | inr hits :: rest =>
        (Return hits, emit (Called (EsSearch index) None) (set_searches rest st))
    | inl e :: rest =>
        (Raise e, emit (Called (EsSearch index) (Some e)) (set_searches rest st))
    end.

(** ** The capabilities *)

Definition block_ip_address (ip_address : option string)
    (params : gmap string string) : M unit :=
  if negb (Str.truthy ip_address) then ret tt
  else
    try_except
      (log WARNING ("SECURITY ACTION: Blocking IP address " +:+ Str.fmt_opt ip_address) >>
       let! ts := now in
       call (EsIndex "security-blocklist"
               (BlockDoc ip_address ts (dict_get params "duration" "1h"))))
      (fun e =>
         log ERROR ("Error blocking IP address " +:+ Str.fmt_opt ip_address +:+ ": " +:+ e)).

Definition disable_user_account (username : option string)
    (params : gmap string string) : M unit :=
  if negb (Str.truthy username) then ret tt
  else
    try_except
      (log WARNING ("SECURITY ACTION: Disabling user account " +:+ Str.fmt_opt username) >>
       let! ts := now in
       call (EsIndex "security-actions"
               (DisableUserDoc username ts (dict_get params "duration" "permanent"))))
      (fun e =>
         log ERROR ("Error disabling user account " +:+ Str.fmt_opt username +:+ ": " +:+ e)).

Definition send_slack_alert (message : string) : M unit :=
  try_except
    (let! url := gets slack_webhook_url in
     call (HttpPost url message))
    (fun e => log ERROR ("Error sending Slack alert: " +:+ e)).

Definition send_email_alert (message : string) : M unit :=
  try_except
    (log INFO "Email alert would be sent here")
    (fun e => log ERROR ("Error sending email alert: " +:+ e)).

Definition nl : string := String (ascii_of_nat 10) EmptyString.

(** The text of the alert (the two pictographs around the title are left
    out). *)
Definition alert_message (event : SecurityEvent) : string :=
  nl +:+ "SECURITY ALERT" +:+ nl +:+ nl +:+
  "Severity: " +:+ Str.upper (severity event) +:+ nl +:+
  "Event Type: " +:+ event_type event +:+ nl +:+
  "Source: " +:+ Str.or_else (source_ip event) "Unknown" +:+ nl +:+
  "User: " +:+ Str.or_else (user event) "Unknown" +:+ nl +:+
  "Time: " +:+ isoformat (timestamp event) +:+ nl +:+ nl +:+
  "Description: " +:+ description event +:+ nl +:+ nl +:+
  "Automated Response: Security orchestrator has been activated." +:+ nl.

Definition nonempty (s : string) : bool :=
  match s with
  | EmptyString => false
  | String _ _ => true
  end.

Definition send_security_alert (event : SecurityEvent)
    (params : gmap string string) : M unit :=
  try_except
    (let message := alert_message event in
     let! slack := gets slack_webhook_url in
     (if nonempty slack then send_slack_alert message else ret tt) >>
     let! smtp := gets email_smtp_host in
     (if nonempty smtp then send_email_alert message else ret tt) >>
     log INFO "Security alert sent successfully")
    (fun e => log ERROR ("Error sending security alert: " +:+ e)).

Definition isolate_host (ip_address : option string)
    (params : gmap string string) : M unit :=
  if negb (Str.truthy ip_address) then ret tt
  else
    try_except
      (log WARNING ("SECURITY ACTION: Isolating host " +:+ Str.fmt_opt ip_address) >>
       let! ts := now in
       call (EsIndex "security-actions"
               (IsolateHostDoc ip_address ts (dict_get params "type" "network"))))
      (fun e =>
         log ERROR ("Error isolating host " +:+ Str.fmt_opt ip_address +:+ ": " +:+ e)).

Definition create_incident_ticket (event : SecurityEvent)
    (params : gmap string string) : M unit :=
  try_except
    (call (EsIndex "security-tickets"
             (TicketDoc ("Security Incident: " +:+ event_type event)
                (description event) (severity event)
                (source_ip event) (user event)
                (isoformat (timestamp event))
                (dict_get params "assigned_to" "security-team"))) >>
     log INFO "Security incident ticket created")
    (fun e => log ERROR ("Error creating incident ticket: " +:+ e)).

Definition store_incident (incident : IncidentResponse) : M unit :=
  try_except
    (call (EsIndex "security-incidents" (IncidentDoc incident)))
    (fun e => log ERROR ("Error storing incident: " +:+ e)).

(** ** Dispatcher: [execute_playbook] *)

Definition is_type (action_type : option string) (tag : string) : bool :=
  bool_decide (action_type = Some tag).

(** The body of [for action in playbook.actions]; the local it rebinds is
    the list [actions_taken]. *)
Definition run_action (event : SecurityEvent) (taken : list string)
    (action : Action) : M (list string) :=
  let type := action_type action in
  let params := default ∅ (action_params action) in
  if is_type type "block_ip" then
    block_ip_address (source_ip event) params >>
    ret (taken ++ ["Blocked IP: " +:+ Str.fmt_opt (source_ip event)])
  else if is_type type "disable_user" then
    disable_user_account (user event) params >>
    ret (taken ++ ["Disabled user: " +:+ Str.fmt_opt (user event)])
  else if is_type type "send_alert" then
    send_security_alert event params >>
    ret (taken ++ ["Sent security alert"])
  else if is_type type "isolate_host" then
    isolate_host (source_ip event) params >>
    ret (taken ++ ["Isolated host: " +:+ Str.fmt_opt (source_ip event)])
  else if is_type type "create_ticket" then
    create_incident_ticket event params >>
    ret (taken ++ ["Created incident ticket"])
  else ret taken.

Definition make_incident_id (t : datetime) (event : SecurityEvent) : string :=
  "incident-" +:+ strftime t +:+ "-" +:+ event_type event.

(** [self.incidents[incident_id] = incident]: the one way in which the
    store of incidents changes; the write is recorded in the trace. *)
Definition put_incident (incident : IncidentResponse) (st : State) : State :=
  mk_state (playbooks st) (<[incident_id incident := incident]> (incidents st))
    (slack_webhook_url st) (email_smtp_host st) (playbooks_dir st) (faults st)
    (searches st) (clock st) (reads st) (trace st ++ [Stored incident]).

Definition execute_playbook (event : SecurityEvent) (playbook : PlaybookConfig) : M unit :=
  try_except
    (let! t := now in
     let id := make_incident_id t event in
     log INFO ("Executing playbook '" +:+ name playbook +:+ "' for incident " +:+ id) >>
     let! taken := for_ (actions playbook) (run_action event) [] in
     let! created := now in
     let incident := mk_incident id (severity event) "active" taken created false in
     modify (put_incident incident) >>
     store_incident incident >>
     log INFO ("Playbook execution completed for incident " +:+ id))
    (fun e => log ERROR ("Error executing playbook: " +:+ e)).

(** ** Event monitor: [process_security_event], [monitor_security_events] *)

(** The [SecurityEvent] built from a raw record and its parsed
    timestamp. *)
Definition normalize (event_data : RawEvent) (ts : datetime) : SecurityEvent :=
  mk_event ts
    (default "unknown" (raw_event_type event_data))
    (default "info" (raw_security_severity event_data))
    (default "unknown" (raw_source event_data))
    (raw_source_ip event_data)
    (raw_username event_data)
    (default EmptyString (raw_message event_data))
    event_data
    (default [] (raw_tags event_data)).

Definition process_security_event (event_data : RawEvent) : M unit :=
  try_except
    (let! fallback := now in
     let! ts :=
       match raw_timestamp event_data with
       | TsAbsent => ret fallback
       | TsInvalid text => raise ("Invalid isoformat string: '" +:+ text +:+ "'")
       | TsValid _ d => ret d
       end in
     let event := normalize event_data ts in
     let! registry := gets playbooks in
     for_ registry
       (fun _ playbook =>
          if event_matches_playbook event playbook
          then execute_playbook event playbook
          else ret tt) tt)
    (fun e => log ERROR ("Error processing security event: " +:+ e)).

Definition monitored_indices : string := "siem-events-*,security-alerts-*".

(** One turn of the [while True] loop. *)
Definition monitor_tick : M unit :=
  try_except
    (let! hits := es_search monitored_indices in
     for_ hits (fun _ hit => process_security_event hit) tt >>
     sleep 10)
    (fun e =>
       log ERROR ("Error monitoring security events: " +:+ e) >>
       sleep 30).

(** The loop never ends by itself; [ticks] bounds the turns observed. *)
Fixpoint monitor_security_events (ticks : nat) : M unit :=
  match ticks with
  | 0 => ret tt
  | S n => monitor_tick >> monitor_security_events n
  end.

(** ** Playbook registry: [load_playbooks], [initialize] *)

Definition is_playbook_file (f : PlaybookFile) : bool :=
  Str.endswith ".yaml" (filename f) || Str.endswith ".yml" (filename f).

Definition append_playbook (p : PlaybookConfig) (st : State) : State :=
  set_playbooks (playbooks st ++ [p]) st.

Definition load_file (f : PlaybookFile) : M unit :=
  if is_playbook_file f then
    match content f with
    | inr playbook => modify (append_playbook playbook)
    | inl e => raise e
    end
  else ret tt.

Definition load_playbooks : M unit :=
  try_except
    (let! listing := gets playbooks_dir in
     match listing with
     | Some files => for_ files (fun _ f => load_file f) tt
     | None => ret tt
     end >>
     let! registry := gets playbooks in
     log INFO ("Loaded " +:+ pretty (length registry) +:+ " security playbooks"))
    (fun e => log ERROR ("Failed to load playbooks: " +:+ e)).

(** [initialize] without the creation of the Elasticsearch client; the
    monitoring task it spawns runs after it. *)
Definition initialize : M unit :=
  try_except
    (load_playbooks >>
     log INFO "Security orchestrator initialized successfully")
    (fun e =>
       log ERROR ("Failed to initialize security orchestrator: " +:+ e) >>
       raise e).

(** ** Routes: [get_stats], [manual_response] *)

Record Stats := mk_stats {
  active_incidents : nat;
  loaded_playbooks : nat;
  stats_status : string
}.

Definition get_stats : M Stats :=
  gets (λ st, mk_stats (size (incidents st)) (length (playbooks st)) "active").

(** [event.dict()] as [process_security_event] reads it: the dictionary
    has the keys of the model ([timestamp], [severity], [user],
    [description], ...), so the keys ['@timestamp'], ['security_severity'],
    ['username'] and ['message'] are missing from it. *)
Definition event_dict (event : SecurityEvent) : RawEvent :=
  mk_raw TsAbsent (Some (event_type event)) None (Some (source event))
    (source_ip event) None None (Some (tags event)).

(** The route answers at once; the task it queues is run here before the
    answer is returned. *)
Definition manual_response (event : SecurityEvent) : M (string * string) :=
  process_security_event (event_dict event) >>
  ret ("response initiated", event_type event).

(** ** Reading aids for the statements *)

Definition known_severities : list string :=
  ["info"; "low"; "medium"; "high"; "critical"].

Definition known_action_types : list string :=
  ["block_ip"; "disable_user"; "send_alert"; "isolate_host"; "create_ticket"].

(** An action the dispatcher has a branch for. *)
Definition recognized (action : Action) : bool :=
  existsb (is_type (action_type action)) known_action_types.

(** The trigger test in the words of the specification: some trigger is a
    case-insensitive substring of the event type, of the description, or
    of some tag. *)
Definition spec_trigger_test (event : SecurityEvent) (playbook : PlaybookConfig) : Prop :=
  ∃ trigger, trigger ∈ triggers playbook ∧
    (Str.occurs_in_nocase trigger (event_type event)
     ∨ Str.occurs_in_nocase trigger (description event)
     ∨ ∃ tag, tag ∈ tags event ∧ Str.occurs_in_nocase trigger tag).

(** The trigger test the matcher performs for triggers written in lower
    case: only the description is compared without regard to case. *)
Definition lowercase_trigger_test (event : SecurityEvent) (playbook : PlaybookConfig) : Prop :=
  ∃ trigger, trigger ∈ triggers playbook ∧
    (Str.occurs_in trigger (event_type event)
     ∨ Str.occurs_in_nocase trigger (description event)
     ∨ ∃ tag, tag ∈ tags event ∧ Str.occurs_in trigger tag).

(** The collaborator a call is addressed to. *)
Inductive Target :=
| Index (index : string)
| Search (index : string)
| Post (url : string).

Definition target (c : Call) : Target :=
  match c with
  | EsIndex index _ => Index index
  | EsSearch index => Search index
  | HttpPost url _ => Post url
  end.

Definition effect_target (e : Effect) : list Target :=
  match e with
  | Called c _ => [target c]
  | _ => []
  end.

(** The calls attempted along a trace, whatever their outcome. *)
Definition targets (t : list Effect) : list Target := flat_map effect_target t.

(** The entry [run_action] appends to [actions_taken] for one action. *)
Definition action_entry (event : SecurityEvent) (action : Action) : list string :=
  let type := action_type action in
  if is_type type "block_ip" then ["Blocked IP: " +:+ Str.fmt_opt (source_ip event)]
  else if is_type type "disable_user" then ["Disabled user: " +:+ Str.fmt_opt (user event)]
  else if is_type type "send_alert" then ["Sent security alert"]
  else if is_type type "isolate_host" then ["Isolated host: " +:+ Str.fmt_opt (source_ip event)]
  else if is_type type "create_ticket" then ["Created incident ticket"]
  else [].

(** The calls one action attempts. *)
Definition action_targets (st : State) (event : SecurityEvent) (action : Action) : list Target :=
  let type := action_type action in
  if is_type type "block_ip" then
    if Str.truthy (source_ip event) then [Index "security-blocklist"] else []
  else if is_type type "disable_user" then
    if Str.truthy (user event) then [Index "security-actions"] else []
  else if is_type type "send_alert" then
    if nonempty (slack_webhook_url st) then [Post (slack_webhook_url st)] else []
  else if is_type type "isolate_host" then
    if Str.truthy (source_ip event) then [Index "security-actions"] else []
  else if is_type type "create_ticket" then [Index "security-tickets"]
  else [].

(** [frame st st']: going from [st] to [st'] left the orchestrator object,
    the configuration and the scripts of the search backend and of the
    clock as they were; only the fault script, the count of clock readings
    and the trace may differ. *)
Record frame (st st' : State) : Prop := mk_frame {
  fr_playbooks : playbooks st' = playbooks st;
  fr_incidents : incidents st' = incidents st;
  fr_slack : slack_webhook_url st' = slack_webhook_url st;
  fr_smtp : email_smtp_host st' = email_smtp_host st;
  fr_dir : playbooks_dir st' = playbooks_dir st;
  fr_searches : searches st' = searches st;
  fr_clock : clock st' = clock st
}.

(** [runs m st a st' ts]: started in [st], [m] returns [a] in [st'], having
    attempted the calls [ts] and kept the frame. *)
Definition runs {A} (m : M A) (st : State) (a : A) (st' : State)
    (ts : list Target) : Prop :=
  m st = (Return a, st')
  ∧ frame st st'
  ∧ targets (trace st') = targets (trace st) ++ ts.

(** The incident a dispatch builds, given the two readings of the clock
    it takes. *)
Definition incident_of (event : SecurityEvent) (t created : datetime)
    (playbook : PlaybookConfig) : IncidentResponse :=
  mk_incident (make_incident_id t event) (severity event) "active"
    (flat_map (action_entry event) (actions playbook)) created false.

(** The calls and the writes to the store of incidents along a trace, in
    the order in which they happen. *)
Inductive Step :=
| DidCall (x : Target)
| DidStore (id : string).

Definition effect_step (e : Effect) : list Step :=
  match e with
  | Called c _ => [DidCall (target c)]
  | Stored incident => [DidStore (incident_id incident)]
  | _ => []
  end.

Definition steps (t : list Effect) : list Step := flat_map effect_step t.

(** The entries the specification expects for a failed and for a skipped
    action. *)
Definition spec_failure_entry (action reason : string) : string :=
  action +:+ " failed: " +:+ reason.

Definition spec_skipped_entry : string := "action skipped: unknown type".

(** The incidents handed to the store along a trace. *)
Definition is_incident_index (x : Target) : bool :=
  match x with
  | Index index => String.eqb index "security-incidents"
  | _ => false
  end.

Definition stored_incidents (t : list Effect) : nat :=
  length (List.filter is_incident_index (targets t)).

(** What [frame] keeps, but for the store of incidents. *)
Record frame_env (st st' : State) : Prop := mk_frame_env {
  fe_playbooks : playbooks st' = playbooks st;
  fe_slack : slack_webhook_url st' = slack_webhook_url st;
  fe_smtp : email_smtp_host st' = email_smtp_host st;
  fe_dir : playbooks_dir st' = playbooks_dir st;
  fe_searches : searches st' = searches st;
  fe_clock : clock st' = clock st
}.

(** The playbooks of a registry that a raw record matches; the timestamp
    given to the record plays no part in matching. *)
Definition matching_playbooks (event_data : RawEvent)
    (registry : list PlaybookConfig) : list PlaybookConfig :=
  List.filter (event_matches_playbook (normalize event_data (mk_datetime 0 0 0 0 0 0 0)))
    registry.

(** A raw record whose timestamp, if any, parses. *)
Definition well_timed (event_data : RawEvent) : bool :=
  match raw_timestamp event_data with
  | TsInvalid _ => false
  | _ => true
  end.

(** A playbook file that cannot be loaded. *)
Definition malformed (f : PlaybookFile) : bool :=
  is_playbook_file f &&
  match content f with
  | inl _ => true
  | inr _ => false
  end.

(** The playbooks of the well-formed playbook files of a listing. *)
Definition well_formed_playbooks (files : list PlaybookFile) : list PlaybookConfig :=
  flat_map
    (λ f, if is_playbook_file f
          then match content f with
               | inr playbook => [playbook]
               | inl _ => []
               end
          else [])
    files.

(** The log lines along a trace. *)
Definition log_line (e : Effect) : list (Level * string) :=
  match e with
  | Logged level msg => [(level, msg)]
  | _ => []
  end.

Definition log_lines (t : list Effect) : list (Level * string) := flat_map log_line t.

(** An upper-case ASCII letter, and a string that holds one. *)
Definition is_upper (c : ascii) : bool :=
  let n := nat_of_ascii c in (65 <=? n) && (n <=? 90).

Fixpoint has_upper (s : string) : bool :=
  match s with
  | EmptyString => false
  | String c s' => is_upper c || has_upper s'
  end.

(** The dates [datetime.now()] returns in the years of four digits. *)
Definition valid_datetime (t : datetime) : Prop :=
  1000 ≤ year t < 10 ^ 4 ∧ 1 ≤ month t ≤ 12 ∧ 1 ≤ day t ≤ 31
  ∧ hour t < 24 ∧ minute t < 60 ∧ second t < 60.

(** Two dates that agree down to the second. *)
Definition same_second (t1 t2 : datetime) : Prop :=
  year t1 = year t2 ∧ month t1 = month t2 ∧ day t1 = day t2
  ∧ hour t1 = hour t2 ∧ minute t1 = minute t2 ∧ second t1 = second t2.

(** The searches made along a trace. *)
Definition is_search (x : Target) : bool :=
  match x with
  | Search _ => true
  | _ => false
  end.

Definition polls (t : list Effect) : nat :=
  length (List.filter is_search (targets t)).

(** What holds of every incident the dispatcher puts in the store: it is
    filed under its own id, active and not resolved. *)
Definition store_ok (m : gmap string IncidentResponse) : Prop :=
  map_Forall
    (λ id incident,
       incident_id incident = id ∧ status incident = "active"
       ∧ resolved incident = false) m.

(** [grows st st']: from [st] to [st'] the environment is kept, no
    incident id left the store, the store stayed well formed and no search
    was made. *)
Record grows (st st' : State) : Prop := mk_grows {
  gr_env : frame_env st st';
  gr_dom : dom (incidents st) ⊆ dom (incidents st');
  gr_ok : store_ok (incidents st) → store_ok (incidents st');
  gr_polls : polls (trace st') = polls (trace st)
}.

(** The sleep that ends a turn of the monitoring loop, given the outcome
    the search script holds for it. *)
Definition tick_sleep (script : list (string + list RawEvent)) : nat :=
  match script with
  | inl _ :: _ => 30
  | _ => 10
  end.

(** The calls the dispatches of an event make against a registry: for
    each playbook the event matches, in the order of the registry, the
    calls of its actions and then the indexing of its incident. *)
Definition dispatch_targets (st : State) (event : SecurityEvent)
    (registry : list PlaybookConfig) : list Target :=
  flat_map
    (λ playbook, flat_map (action_targets st event) (actions playbook)
                 ++ [Index "security-incidents"])
    (List.filter (event_matches_playbook event) registry).

(** The playbooks of the playbook files listed before the first malformed
    one. *)
Fixpoint loaded_prefix (files : list PlaybookFile) : list PlaybookConfig :=
  match files with
  | [] => []
  | f :: rest =>
      if is_playbook_file f then
        match content f with
        | inr playbook => playbook :: loaded_prefix rest
        | inl _ => []
        end
      else loaded_prefix rest
  end.

(** ** Concrete scenarios *)

Module Scenario.

Definition noon : datetime := mk_datetime 2025 8 14 12 30 45 0.

(** A clock that stands still, and one that advances a second at each
    reading. *)
Definition frozen_clock : nat → datetime := λ _, noon.
Definition ticking_clock : nat → datetime := λ n, mk_datetime 2025 8 14 12 30 n 0.

Definition no_params : option (gmap string string) := None.

Definition sql_raw : RawEvent :=
  mk_raw (TsValid "2025-08-14T12:30:40" (mk_datetime 2025 8 14 12 30 40 0))
    (Some "sql_injection") (Some "critical") (Some "waf")
    (Some "10.0.0.5") None (Some "Detected SQL Injection attempt") None.

Definition sql_event : SecurityEvent :=
  normalize sql_raw (mk_datetime 2025 8 14 12 30 40 0).

Definition sql_playbook : PlaybookConfig :=
  mk_playbook "sql-response" ["sql_injection"] "high"
    [mk_action (Some "block_ip") no_params; mk_action (Some "send_alert") no_params]
    true.

Definition alert_playbook : PlaybookConfig :=
  mk_playbook "notify" ["sql"] "critical"
    [mk_action (Some "send_alert") no_params] true.

(** An empty orchestrator whose collaborators all answer. *)
Definition calm (clock : nat → datetime) : State :=
  mk_state [] ∅ EmptyString EmptyString None [] [] clock 0 [].

(** The firewall index is unreachable at the first call. *)
Definition firewall_down : State :=
  set_faults [Some "firewall unreachable"] (calm frozen_clock).

(** An event without source address. *)
Definition anonymous_event : SecurityEvent :=
  mk_event noon "sql_injection" "critical" "waf" None None
    "Detected SQL Injection attempt" sql_raw [].

(** A playbook whose first action has a type the dispatcher does not
    know. *)
Definition reboot_playbook : PlaybookConfig :=
  mk_playbook "reboot" ["sql_injection"] "high"
    [mk_action (Some "reboot_host") no_params; mk_action (Some "send_alert") no_params]
    true.

(** The same event one rank lower, and a playbook whose threshold is
    not a severity. *)
Definition high_event : SecurityEvent :=
  mk_event noon "sql_injection" "high" "waf" (Some "10.0.0.5") None
    "Detected SQL Injection attempt" sql_raw [].

Definition urgent_playbook : PlaybookConfig :=
  mk_playbook "urgent" ["sql_injection"] "urgent"
    [mk_action (Some "send_alert") no_params] true.

(** An event whose type is written in upper case and whose description is
    empty. *)
Definition shouted_event : SecurityEvent :=
  mk_event noon "SQL_INJECTION" "critical" "waf" (Some "10.0.0.5") None
    EmptyString sql_raw [].

(** An event that mentions SQL in its description only. *)
Definition injection_event : SecurityEvent :=
  mk_event noon "web_attack" "critical" "waf" (Some "10.0.0.5") None
    "Detected SQL Injection attempt" sql_raw [].

(** The registry holds one playbook and two successive polls return
    the same record. *)
Definition overlapping_polls : State :=
  mk_state [sql_playbook] ∅ EmptyString EmptyString None []
    [inr [sql_raw]; inr [sql_raw]] ticking_clock 0 [].

(** Successive readings of the clock a microsecond apart, within one
    second; the registry holds two playbooks the record matches. *)
Definition microsecond_clock : nat → datetime :=
  λ n, mk_datetime 2025 8 14 12 30 45 n.

Definition two_playbooks : State :=
  mk_state [sql_playbook; alert_playbook] ∅ EmptyString EmptyString None []
    [] microsecond_clock 0 [].

(** A directory whose first file is malformed and whose second is
    well formed. *)
Definition bad_file : PlaybookFile :=
  mk_file "a-broken.yaml" (inl "mapping values are not allowed here").

Definition good_file : PlaybookFile :=
  mk_file "b-sql.yaml" (inr sql_playbook).

Definition one_bad_file : State :=
  mk_state [] ∅ EmptyString EmptyString (Some [bad_file; good_file]) []
    [] frozen_clock 0 [].

Definition bad_file_last : State :=
  mk_state [] ∅ EmptyString EmptyString (Some [good_file; bad_file]) []
    [] frozen_clock 0 [].

(** A directory with a file that is no playbook file, broken as it may
    be, and a well-formed playbook file. *)
Definition notes_file : PlaybookFile :=
  mk_file "README.txt" (inl "expected a mapping").

Definition mixed_directory : State :=
  mk_state [alert_playbook] ∅ EmptyString EmptyString
    (Some [notes_file; good_file]) [] [] frozen_clock 0 [].

End Scenario.

(** * Properties *)

(** ** Strings *)

Section StringFacts.

Lemma startswith_spec t s :
  Str.startswith t s = true ↔ ∃ b, s = t +:+ b.
Proof.
  revert s. induction t as [|a t IH]; intros s; simpl.
  - split; [intros _; by exists s | done].
  - destruct s as [|b s].
    + split; [done | intros [? ?]; discriminate].
    + rewrite andb_true_iff, Ascii.eqb_eq, IH. split.
      * intros [-> [r ->]]. by exists r.
      * intros [r Hr]. injection Hr as -> ->. eauto.
Qed.

Lemma append_empty_inv a b : a +:+ b = EmptyString → a = EmptyString ∧ b = EmptyString.
Proof. destruct a; simpl; [done | discriminate]. Qed.

Lemma str_in_spec t s : Str.str_in t s = true ↔ Str.occurs_in t s.
Proof.
  unfold Str.occurs_in. induction s as [|c s IH]; simpl.
  - rewrite orb_false_r, startswith_spec. split.
    + intros [b Hb]. exists EmptyString, b. done.
    + intros (a & b & H). symmetry in H.
      apply append_empty_inv in H as [-> H].
      apply append_empty_inv in H as [-> ->]. by exists EmptyString.
  - rewrite orb_true_iff, startswith_spec, IH. split.
    + intros [[b Hb] | (a & b & ->)].
      * exists EmptyString, b. done.
      * exists (String c a), b. done.
    + intros ([|c' a] & b & H); simpl in H.
      * left. eauto.
      * right. injection H as -> ->. eauto.
Qed.

Lemma str_in_false t s : Str.str_in t s = false ↔ ¬ Str.occurs_in t s.
Proof. rewrite <- str_in_spec. by destruct (Str.str_in t s). Qed.

End StringFacts.

(** ** Matcher *)

Section Matcher.

Lemma severity_levels_unknown s :
  s ∉ known_severities → severity_levels !! s = None.
Proof.
  unfold known_severities, severity_levels. intros H.
  rewrite !not_elem_of_cons in H. destruct H as (? & ? & ? & ? & ? & _).
  rewrite !lookup_insert_ne by done. by apply lookup_singleton_ne.
Qed.

(** Unknown event severities rank 0. *)
Lemma event_severity_unknown event :
  severity event ∉ known_severities → event_severity event = 0.
Proof.
  intros H. unfold event_severity, dict_get.
  by rewrite severity_levels_unknown.
Qed.

(** Unknown playbook thresholds rank 5. *)
Lemma threshold_severity_unknown playbook :
  severity_threshold playbook ∉ known_severities → threshold_severity playbook = 5.
Proof.
  intros H. unfold threshold_severity, dict_get.
  by rewrite severity_levels_unknown.
Qed.

(** Only [critical] reaches rank 5. *)
Lemma rank_five s : 5 ≤ dict_get severity_levels s 0 ↔ s = "critical".
Proof.
  unfold dict_get, severity_levels.
  destruct (decide (s = "info")) as [->|]; [vm_compute; split; intros; (lia || done)|].
  destruct (decide (s = "low")) as [->|]; [vm_compute; split; intros; (lia || done)|].
  destruct (decide (s = "medium")) as [->|]; [vm_compute; split; intros; (lia || done)|].
  destruct (decide (s = "high")) as [->|]; [vm_compute; split; intros; (lia || done)|].
  destruct (decide (s = "critical")) as [->|]; [vm_compute; split; intros; (lia || done)|].
  rewrite !lookup_insert_ne by done. rewrite lookup_singleton_ne by done.
  split; [lia | done].
Qed.

Lemma severity_gate_spec event playbook :
  severity_gate event playbook = true ↔
  threshold_severity playbook ≤ event_severity event.
Proof.
  unfold severity_gate. rewrite negb_true_iff, Nat.ltb_ge. done.
Qed.

Lemma trigger_hits_spec event trigger :
  trigger_hits event trigger = true ↔
  Str.occurs_in trigger (event_type event)
  ∨ Str.occurs_in trigger (Str.lower (description event))
  ∨ ∃ tag, tag ∈ tags event ∧ Str.occurs_in trigger tag.
Proof.
  unfold trigger_hits.
  rewrite !orb_true_iff, !str_in_spec, existsb_exists.
  setoid_rewrite str_in_spec. setoid_rewrite <- list_elem_of_In. tauto.
Qed.

(** What the matcher computes. *)
Lemma event_matches_playbook_spec event playbook :
  event_matches_playbook event playbook = true ↔
  enabled playbook = true
  ∧ severity_gate event playbook = true
  ∧ ∃ trigger, trigger ∈ triggers playbook ∧ trigger_hits event trigger = true.
Proof.
  unfold event_matches_playbook, severity_gate.
  destruct (enabled playbook); simpl;
    [| split; [done | by intros (? & _)]].
  destruct (event_severity event <? threshold_severity playbook); simpl;
    [split; [done | by intros (_ & ? & _)] |].
  rewrite existsb_exists. setoid_rewrite <- list_elem_of_In.
  split; [by intros H | by intros (_ & _ & H)].
Qed.

End Matcher.

(** ** Effects of the capabilities *)

Section Capabilities.

Lemma targets_app t1 t2 : targets (t1 ++ t2) = targets t1 ++ targets t2.
Proof. apply flat_map_app. Qed.

Lemma frame_refl st : frame st st.
Proof. by constructor. Qed.

Lemma frame_trans st1 st2 st3 : frame st1 st2 → frame st2 st3 → frame st1 st3.
Proof.
  intros [] []. constructor; etrans; eauto.
Qed.

Lemma runs_bind {A B} (m : M A) (k : A → M B) st a st1 ts1 b st2 ts2 :
  runs m st a st1 ts1 → runs (k a) st1 b st2 ts2 →
  runs (bind m k) st b st2 (ts1 ++ ts2).
Proof.
  intros (E1 & F1 & T1) (E2 & F2 & T2). unfold runs, bind.
  rewrite E1. split; [done|]. split; [by eapply frame_trans|].
  by rewrite T2, T1, <- app_assoc.
Qed.

Lemma runs_try {A} (m : M A) h st a st' ts :
  runs m st a st' ts → runs (try_except m h) st a st' ts.
Proof.
  intros (E & F & T). unfold runs, try_except. by rewrite E.
Qed.

(** Closes [runs m st a ?st' ts] for a computation made of primitives
    once the head of the fault script is known. *)
Ltac run_prims F :=
  eexists; unfold runs;
  split;
  [ unfold try_except, bind, log, now, call, modify, gets, ret; cbn;
    rewrite ?F; cbn; rewrite ?F; reflexivity
  | split;
    [ by constructor
    | cbn; rewrite ?targets_app; cbn; rewrite ?app_nil_r; reflexivity ] ].

Lemma block_ip_address_runs ip params st :
  ∃ st', runs (block_ip_address ip params) st tt st'
           (if Str.truthy ip then [Index "security-blocklist"] else []).
Proof.
  unfold block_ip_address. destruct (Str.truthy ip); cbn [negb].
  - destruct (faults st) as [|[e|] rest] eqn:F; run_prims F.
  - run_prims I.
Qed.

Lemma disable_user_account_runs username params st :
  ∃ st', runs (disable_user_account username params) st tt st'
           (if Str.truthy username then [Index "security-actions"] else []).
Proof.
  unfold disable_user_account. destruct (Str.truthy username); cbn [negb].
  - destruct (faults st) as [|[e|] rest] eqn:F; run_prims F.
  - run_prims I.
Qed.

Lemma isolate_host_runs ip params st :
  ∃ st', runs (isolate_host ip params) st tt st'
           (if Str.truthy ip then [Index "security-actions"] else []).
Proof.
  unfold isolate_host. destruct (Str.truthy ip); cbn [negb].
  - destruct (faults st) as [|[e|] rest] eqn:F; run_prims F.
  - run_prims I.
Qed.

Lemma create_incident_ticket_runs event params st :
  ∃ st', runs (create_incident_ticket event params) st tt st'
           [Index "security-tickets"].
Proof.
  unfold create_incident_ticket.
  destruct (faults st) as [|[e|] rest] eqn:F; run_prims F.
Qed.

Lemma store_incident_runs incident st :
  ∃ st', runs (store_incident incident) st tt st' [Index "security-incidents"].
Proof.
  unfold store_incident.
  destruct (faults st) as [|[e|] rest] eqn:F; run_prims F.
Qed.

Lemma send_security_alert_runs event params st :
  ∃ st', runs (send_security_alert event params) st tt st'
           (if nonempty (slack_webhook_url st)
            then [Post (slack_webhook_url st)] else []).
Proof.
  unfold send_security_alert, send_slack_alert, send_email_alert.
  destruct (nonempty (slack_webhook_url st)) eqn:S;
    destruct (nonempty (email_smtp_host st)) eqn:E;
    destruct (faults st) as [|[e|] rest] eqn:F;
    eexists; unfold runs;
    (split;
     [ unfold try_except, bind, log, now, call, modify, gets, ret; cbn;
       rewrite ?S, ?E; cbn; rewrite ?F, ?E; cbn; rewrite ?E; reflexivity
     | split;
       [ by constructor
       | cbn; rewrite ?targets_app; cbn; rewrite ?app_nil_r; reflexivity ] ]).
Qed.

(** A failing call of [block_ip_address] does not leave the capability:
    it is caught there and logged as an error. *)
Lemma block_ip_address_caught ip params e rest st :
  Str.truthy ip = true →
  faults st = Some e :: rest →
  ∃ st', block_ip_address ip params st = (Return tt, st')
         ∧ faults st' = rest
         ∧ log_lines (trace st')
           = log_lines (trace st)
             ++ [(WARNING, "SECURITY ACTION: Blocking IP address " +:+ Str.fmt_opt ip);
                 (ERROR, "Error blocking IP address " +:+ Str.fmt_opt ip +:+ ": " +:+ e)].
Proof.
  intros Hip F. unfold block_ip_address. rewrite Hip. cbn [negb].
  eexists. split; [|split].
  - unfold try_except, bind, log, now, call, modify. cbn. rewrite F. reflexivity.
  - reflexivity.
  - unfold log_lines. cbn [trace emit set_faults set_reads].
    rewrite !flat_map_app. cbn [flat_map log_line app].
    by rewrite !app_nil_r, <- !app_assoc.
Qed.

Lemma steps_app t1 t2 : steps (t1 ++ t2) = steps t1 ++ steps t2.
Proof. apply flat_map_app. Qed.

(** Computes the steps of a computation made of primitives once the head
    of the fault script is known. *)
Ltac step_prims F :=
  unfold try_except, bind, log, now, call, modify, gets, ret; cbn;
  rewrite ?F; cbn; rewrite ?F; cbn;
  rewrite ?steps_app; cbn; rewrite ?app_nil_r; reflexivity.

Lemma block_ip_address_steps ip params st :
  steps (trace (snd (block_ip_address ip params st)))
  = steps (trace st)
    ++ map DidCall (if Str.truthy ip then [Index "security-blocklist"] else []).
Proof.
  unfold block_ip_address. destruct (Str.truthy ip); cbn [negb].
  - destruct (faults st) as [|[e|] rest] eqn:F; step_prims F.
  - step_prims I.
Qed.

Lemma disable_user_account_steps username params st :
  steps (trace (snd (disable_user_account username params st)))
  = steps (trace st)
    ++ map DidCall (if Str.truthy username then [Index "security-actions"] else []).
Proof.
  unfold disable_user_account. destruct (Str.truthy username); cbn [negb].
  - destruct (faults st) as [|[e|] rest] eqn:F; step_prims F.
  - step_prims I.
Qed.

Lemma isolate_host_steps ip params st :
  steps (trace (snd (isolate_host ip params st)))
  = steps (trace st)
    ++ map DidCall (if Str.truthy ip then [Index "security-actions"] else []).
Proof.
  unfold isolate_host. destruct (Str.truthy ip); cbn [negb].
  - destruct (faults st) as [|[e|] rest] eqn:F; step_prims F.
  - step_prims I.
Qed.

Lemma create_incident_ticket_steps event params st :
  steps (trace (snd (create_incident_ticket event params st)))
  = steps (trace st) ++ map DidCall [Index "security-tickets"].
Proof.
  unfold create_incident_ticket.
  destruct (faults st) as [|[e|] rest] eqn:F; step_prims F.
Qed.

Lemma store_incident_steps incident st :
  steps (trace (snd (store_incident incident st)))
  = steps (trace st) ++ map DidCall [Index "security-incidents"].
Proof.
  unfold store_incident.
  destruct (faults st) as [|[e|] rest] eqn:F; step_prims F.
Qed.

Lemma send_security_alert_steps event params st :
  steps (trace (snd (send_security_alert event params st)))
  = steps (trace st)
    ++ map DidCall (if nonempty (slack_webhook_url st)
                    then [Post (slack_webhook_url st)] else []).
Proof.
  unfold send_security_alert, send_slack_alert, send_email_alert.
  destruct (nonempty (slack_webhook_url st)) eqn:S;
    destruct (nonempty (email_smtp_host st)) eqn:E;
    destruct (faults st) as [|[e|] rest] eqn:F;
    unfold try_except, bind, log, now, call, modify, gets, ret; cbn;
    rewrite ?S, ?E; cbn; rewrite ?F, ?E; cbn; rewrite ?E; cbn;
    rewrite ?steps_app; cbn; rewrite ?app_nil_r; reflexivity.
Qed.

End Capabilities.

(** ** Dispatcher *)

Section Dispatcher.

Variable event : SecurityEvent.

Lemma for_app {A L} (xs ys : list A) (body : L → A → M L) locals st :
  for_ (xs ++ ys) body locals st =
  (let! locals' := for_ xs body locals in for_ ys body locals') st.
Proof.
  revert locals st. induction xs as [|x xs IH]; intros locals st; simpl.
  - done.
  - unfold bind in *. destruct (body locals x st) as [[l'|e] st1]; [|done].
    apply IH.
Qed.

Lemma action_targets_frame st st' action :
  frame st st' → action_targets st' event action = action_targets st event action.
Proof. intros F. unfold action_targets. by rewrite (fr_slack _ _ F). Qed.

(** One turn of the loop returns normally, whatever the collaborators
    do, with the entry of the action appended. *)
Lemma run_action_runs taken action st :
  ∃ st', runs (run_action event taken action) st
           (taken ++ action_entry event action) st'
           (action_targets st event action).
Proof.
  unfold run_action, action_entry, action_targets.
  destruct (is_type (action_type action) "block_ip").
  { destruct (block_ip_address_runs (source_ip event)
                (default ∅ (action_params action)) st) as (st' & R).
    exists st'. rewrite <- (app_nil_r (if Str.truthy _ then _ else _)).
    eapply runs_bind; [exact R | split; [done | split; [apply frame_refl | by rewrite app_nil_r]]]. }
  destruct (is_type (action_type action) "disable_user").
  { destruct (disable_user_account_runs (user event)
                (default ∅ (action_params action)) st) as (st' & R).
    exists st'. rewrite <- (app_nil_r (if Str.truthy _ then _ else _)).
    eapply runs_bind; [exact R | split; [done | split; [apply frame_refl | by rewrite app_nil_r]]]. }
  destruct (is_type (action_type action) "send_alert").
  { destruct (send_security_alert_runs event
                (default ∅ (action_params action)) st) as (st' & R).
    exists st'. rewrite <- (app_nil_r (if nonempty _ then _ else _)).
    eapply runs_bind; [exact R | split; [done | split; [apply frame_refl | by rewrite app_nil_r]]]. }
  destruct (is_type (action_type action) "isolate_host").
  { destruct (isolate_host_runs (source_ip event)
                (default ∅ (action_params action)) st) as (st' & R).
    exists st'. rewrite <- (app_nil_r (if Str.truthy _ then _ else _)).
    eapply runs_bind; [exact R | split; [done | split; [apply frame_refl | by rewrite app_nil_r]]]. }
  destruct (is_type (action_type action) "create_ticket").
  { destruct (create_incident_ticket_runs event
                (default ∅ (action_params action)) st) as (st' & R).
    exists st'. change [Index "security-tickets"] with ([Index "security-tickets"] ++ []).
    eapply runs_bind; [exact R | split; [done | split; [apply frame_refl | by rewrite app_nil_r]]]. }
  exists st. rewrite app_nil_r.
  split; [done | split; [apply frame_refl | by rewrite app_nil_r]].
Qed.

(** The whole loop: one entry per recognized action, in the declared
    order, and the calls of every action attempted in that order. *)
Lemma for_run_action_runs acts taken st :
  ∃ st', runs (for_ acts (run_action event) taken) st
           (taken ++ flat_map (action_entry event) acts) st'
           (flat_map (action_targets st event) acts).
Proof.
  revert taken st. induction acts as [|a acts IH]; intros taken st; simpl.
  - exists st. rewrite app_nil_r.
    split; [done | split; [apply frame_refl | by rewrite app_nil_r]].
  - destruct (run_action_runs taken a st) as (st1 & R1).
    destruct (IH (taken ++ action_entry event a) st1) as (st2 & R2).
    exists st2. rewrite app_assoc.
    eapply runs_bind; [exact R1|].
    replace (flat_map (action_targets st event) acts)
      with (flat_map (action_targets st1 event) acts); [exact R2|].
    destruct R1 as (_ & F & _).
    apply flat_map_ext. intros. by apply action_targets_frame.
Qed.

Lemma snd_bind_ret {A B} (m : M A) (b : B) st :
  snd ((m >> ret b) st) = snd (m st).
Proof. unfold bind. by destruct (m st) as [[a|e] st']. Qed.

(** The steps of one turn of the loop: the calls of the action, and no
    write to the store. *)
Lemma run_action_steps taken action st :
  steps (trace (snd (run_action event taken action st)))
  = steps (trace st) ++ map DidCall (action_targets st event action).
Proof.
  unfold run_action, action_targets.
  destruct (is_type (action_type action) "block_ip");
    [rewrite snd_bind_ret; apply block_ip_address_steps|].
  destruct (is_type (action_type action) "disable_user");
    [rewrite snd_bind_ret; apply disable_user_account_steps|].
  destruct (is_type (action_type action) "send_alert");
    [rewrite snd_bind_ret; apply send_security_alert_steps|].
  destruct (is_type (action_type action) "isolate_host");
    [rewrite snd_bind_ret; apply isolate_host_steps|].
  destruct (is_type (action_type action) "create_ticket");
    [rewrite snd_bind_ret; apply create_incident_ticket_steps|].
  cbn. by rewrite app_nil_r.
Qed.

Lemma for_run_action_steps acts taken st :
  steps (trace (snd (for_ acts (run_action event) taken st)))
  = steps (trace st) ++ map DidCall (flat_map (action_targets st event) acts).
Proof.
  revert taken st. induction acts as [|a acts IH]; intros taken st.
  - cbn. by rewrite app_nil_r.
  - cbn [for_ flat_map]. unfold bind.
    pose proof (run_action_steps taken a st) as S1.
    destruct (run_action_runs taken a st) as (st1 & E1 & F1 & _).
    rewrite E1 in S1 |- *. cbn [snd] in S1. rewrite IH, S1, map_app, <- app_assoc.
    do 3 f_equal. apply flat_map_ext. intros. by apply action_targets_frame.
Qed.

(** A dispatch returns normally; it leaves one incident in the store,
    under the id made from the first reading of the clock, and attempts
    the calls of the actions followed by the indexing of the incident;
    the one write to the store comes after the calls of the actions and
    before the indexing. *)
Lemma execute_playbook_full playbook st :
  ∃ st' created,
    execute_playbook event playbook st = (Return tt, st')
    ∧ frame (put_incident (incident_of event (clock st (reads st)) created playbook) st) st'
    ∧ targets (trace st') =
        targets (trace st) ++ flat_map (action_targets st event) (actions playbook)
        ++ [Index "security-incidents"]
    ∧ steps (trace st') =
        steps (trace st)
        ++ map DidCall (flat_map (action_targets st event) (actions playbook))
        ++ [DidStore (make_incident_id (clock st (reads st)) event);
            DidCall (Index "security-incidents")].
Proof.
  set (id := make_incident_id (clock st (reads st)) event).
  set (st0 := emit (Logged INFO ("Executing playbook '" +:+ name playbook +:+
                                 "' for incident " +:+ id))
                (set_reads (S (reads st)) st)).
  destruct (for_run_action_runs (actions playbook) [] st0) as (st1 & E1 & F1 & T1).
  pose proof (for_run_action_steps (actions playbook) [] st0) as S1.
  rewrite E1 in S1. cbn [snd] in S1.
  set (created := clock st1 (reads st1)).
  set (inc := incident_of event (clock st (reads st)) created playbook).
  destruct (store_incident_runs inc (put_incident inc (set_reads (S (reads st1)) st1)))
    as (st2 & E2 & F2 & T2).
  pose proof (store_incident_steps inc (put_incident inc (set_reads (S (reads st1)) st1)))
    as S2.
  rewrite E2 in S2. cbn [snd] in S2.
  eexists; exists created. split; [|split; [|split]].
  - unfold execute_playbook, try_except.
    unfold bind at 1. unfold now at 1. cbn [fst snd].
    unfold bind at 1. unfold log at 1, modify at 1.
    unfold bind at 1. fold id. fold st0. rewrite E1.
    unfold bind at 1. unfold now at 1.
    unfold bind at 1. unfold modify at 1.
    unfold bind at 1. fold created.
    change (mk_incident id (severity event) "active"
              ([] ++ flat_map (action_entry event) (actions playbook)) created false)
      with inc.
    rewrite E2. unfold log, modify. reflexivity.
  - subst st0 inc created id. destruct F1, F2.
    constructor; cbn in *; congruence.
  - change (targets (trace st2 ++ [Logged INFO
             ("Playbook execution completed for incident " +:+ id)]) =
            targets (trace st) ++ flat_map (action_targets st event) (actions playbook)
            ++ [Index "security-incidents"]).
    rewrite targets_app, T2.
    change (trace (put_incident inc (set_reads (S (reads st1)) st1)))
      with (trace st1 ++ [Stored inc]).
    rewrite targets_app, T1. subst st0.
    change (trace (emit ?e (set_reads ?n st))) with (trace st ++ [e]).
    rewrite targets_app. cbn [targets flat_map effect_target app].
    rewrite !app_nil_r, <- app_assoc. done.
  - change (steps (trace st2 ++ [Logged INFO
             ("Playbook execution completed for incident " +:+ id)]) =
            steps (trace st)
            ++ map DidCall (flat_map (action_targets st event) (actions playbook))
            ++ [DidStore id; DidCall (Index "security-incidents")]).
    rewrite steps_app, S2.
    change (trace (put_incident inc (set_reads (S (reads st1)) st1)))
      with (trace st1 ++ [Stored inc]).
    rewrite steps_app, S1. subst st0.
    change (trace (emit ?e (set_reads ?n st))) with (trace st ++ [e]).
    rewrite steps_app. cbn [steps flat_map effect_step app map].
    rewrite !app_nil_r, <- !app_assoc. done.
Qed.

Lemma execute_playbook_runs playbook st :
  ∃ st' created,
    execute_playbook event playbook st = (Return tt, st')
    ∧ frame (put_incident (incident_of event (clock st (reads st)) created playbook) st) st'
    ∧ targets (trace st') =
        targets (trace st) ++ flat_map (action_targets st event) (actions playbook)
        ++ [Index "security-incidents"].
Proof.
  destruct (execute_playbook_full playbook st) as (st' & created & E & F & T & _).
  by exists st', created.
Qed.

End Dispatcher.

(** ** Claims about the dispatcher *)

Section DispatcherClaims.

Import Scenario.

Lemma execute_playbook_incident event playbook st :
  ∃ st' created,
    execute_playbook event playbook st = (Return tt, st')
    ∧ incidents st' !! make_incident_id (clock st (reads st)) event
      = Some (incident_of event (clock st (reads st)) created playbook)
    ∧ targets (trace st') =
        targets (trace st) ++ flat_map (action_targets st event) (actions playbook)
        ++ [Index "security-incidents"].
Proof.
  destruct (execute_playbook_runs event playbook st) as (st' & created & E & F & T).
  exists st', created. split; [done|]. split; [|done].
  rewrite (fr_incidents _ _ F). unfold put_incident. cbn.
  apply lookup_insert_eq.
Qed.

Lemma action_entry_length event action :
  length (action_entry event action) = if recognized action then 1 else 0.
Proof.
  unfold action_entry, recognized, known_action_types. cbn [existsb].
  by repeat (destruct (is_type (action_type action) _); cbn [orb]).
Qed.

Lemma entries_length event acts :
  length (flat_map (action_entry event) acts) = length (List.filter recognized acts).
Proof.
  induction acts as [|a acts IH]; [done|]. cbn [flat_map List.filter].
  rewrite length_app, action_entry_length, IH.
  by destruct (recognized a).
Qed.

(** C8. The scenario of the specification: a critical [sql_injection]
    event from 10.0.0.5 matches an enabled playbook with trigger
    [sql_injection], threshold [high] and actions [block_ip],
    [send_alert]; its dispatch returns and leaves an incident with
    [actions_taken = ["Blocked IP: 10.0.0.5"; "Sent security alert"]] and
    status [active], whatever the other fields of the event, the
    parameters of the actions and the behaviour of the collaborators. *)
Theorem C8_sql_injection_scenario
    ts src usr descr raw tgs pname params1 params2 st :
  let event :=
    mk_event ts "sql_injection" "critical" src (Some "10.0.0.5") usr descr raw tgs in
  let playbook :=
    mk_playbook pname ["sql_injection"] "high"
      [mk_action (Some "block_ip") params1; mk_action (Some "send_alert") params2]
      true in
  event_matches_playbook event playbook = true
  ∧ ∃ st' incident,
      execute_playbook event playbook st = (Return tt, st')
      ∧ incidents st' !! make_incident_id (clock st (reads st)) event = Some incident
      ∧ actions_taken incident = ["Blocked IP: 10.0.0.5"; "Sent security alert"]
      ∧ status incident = "active".
Proof.
  intros event playbook. split; [by vm_compute|].
  destruct (execute_playbook_incident event playbook st) as (st' & created & E & L & _).
  exists st', (incident_of event (clock st (reads st)) created playbook).
  by repeat split.
Qed.

Lemma no_block_without_address st event action :
  source_ip event = None → Index "security-blocklist" ∉ action_targets st event action.
Proof.
  intros H. unfold action_targets. rewrite H. cbn [Str.truthy].
  repeat (destruct (is_type (action_type action) _));
    repeat (destruct (Str.truthy _)); repeat (destruct (nonempty _));
    rewrite ?elem_of_cons, ?elem_of_nil; intros X; decompose [or] X; done.
Qed.

(** C10. When the event has no [source_ip], a [block_ip] action changes
    nothing (the capability returns at once: no call, no log line) and
    the dispatcher still appends ["Blocked IP: None"]: the incident of a
    playbook with such an action lists a block although no call to the
    block list was attempted. Likewise [isolate_host] without
    [source_ip] and [disable_user] without [user]. *)
Theorem C10_block_recorded_but_not_performed event playbook params st :
  source_ip event = None →
  mk_action (Some "block_ip") params ∈ actions playbook →
  (∀ taken s,
      run_action event taken (mk_action (Some "block_ip") params) s
      = (Return (taken ++ ["Blocked IP: None"]), s))
  ∧ (∀ taken s p,
      run_action event taken (mk_action (Some "isolate_host") p) s
      = (Return (taken ++ ["Isolated host: None"]), s))
  ∧ (user event = None → ∀ taken s p,
      run_action event taken (mk_action (Some "disable_user") p) s
      = (Return (taken ++ ["Disabled user: None"]), s))
  ∧ ∃ st' incident ts,
      execute_playbook event playbook st = (Return tt, st')
      ∧ incidents st' !! make_incident_id (clock st (reads st)) event = Some incident
      ∧ "Blocked IP: None" ∈ actions_taken incident
      ∧ targets (trace st') = targets (trace st) ++ ts
      ∧ Index "security-blocklist" ∉ ts.
Proof.
  intros Hip Hin. repeat split.
  - intros. unfold run_action. cbn. by rewrite Hip.
  - intros. unfold run_action. cbn. by rewrite Hip.
  - intros Hu **. unfold run_action. cbn. by rewrite Hu.
  - destruct (execute_playbook_incident event playbook st) as (st' & created & E & L & T).
    exists st', (incident_of event (clock st (reads st)) created playbook),
      (flat_map (action_targets st event) (actions playbook)
       ++ [Index "security-incidents"]).
    repeat split; try done.
    + cbn. apply list_elem_of_In, in_flat_map.
      exists (mk_action (Some "block_ip") params).
      split; [by apply list_elem_of_In|].
      unfold action_entry. cbn. rewrite Hip. by left.
    + rewrite elem_of_app, list_elem_of_singleton. intros [H|H]; [|done].
      apply list_elem_of_In, in_flat_map in H as (a & _ & H).
      apply list_elem_of_In in H. by eapply no_block_without_address.
Qed.

Lemma C10_witness :
  source_ip anonymous_event = None
  ∧ mk_action (Some "block_ip") no_params ∈ actions sql_playbook
  ∧ ∃ st' incident ts,
      execute_playbook anonymous_event sql_playbook (calm frozen_clock) = (Return tt, st')
      ∧ incidents st' !! make_incident_id noon anonymous_event = Some incident
      ∧ "Blocked IP: None" ∈ actions_taken incident
      ∧ targets (trace st') = targets (trace (calm frozen_clock)) ++ ts
      ∧ Index "security-blocklist" ∉ ts.
Proof.
  split; [reflexivity|]. split; [by left|].
  apply (C10_block_recorded_but_not_performed anonymous_event sql_playbook
           no_params (calm frozen_clock)); [reflexivity | by left].
Defined.

End DispatcherClaims.

(** ** Where the dispatcher departs from the specification *)

Section DispatcherCorrections.

Import Scenario.

(** Finds an element in an explicit list. *)
Ltac find_in_list := vm_compute; solve [repeat first [left | right]].

Lemma spec_failure_entry_occurs action reason s :
  spec_failure_entry action reason = s → Str.str_in " failed: " s = true.
Proof. intros <-. apply str_in_spec. by exists action, reason. Qed.

(** C1, as stated, fails: the index call of [block_ip] raises, the
    capability catches and logs it, and the incident lists the block as
    done; no entry of the form [<action> failed: <reason>] is recorded. *)
Lemma C1_counterexample :
  let run := execute_playbook sql_event sql_playbook firewall_down in
  fst run = Return tt
  ∧ Called (EsIndex "security-blocklist" (BlockDoc (Some "10.0.0.5") noon "1h"))
      (Some "firewall unreachable") ∈ trace (snd run)
  ∧ Logged ERROR "Error blocking IP address 10.0.0.5: firewall unreachable"
      ∈ trace (snd run)
  ∧ actions_taken <$> (incidents (snd run) !! "incident-20250814-123045-sql_injection")
    = Some ["Blocked IP: 10.0.0.5"; "Sent security alert"]
  ∧ ∀ action reason,
      spec_failure_entry action reason ∉ ["Blocked IP: 10.0.0.5"; "Sent security alert"].
Proof.
  split; [by vm_compute|]. split; [find_in_list|]. split; [find_in_list|].
  split; [by vm_compute|].
  intros action reason H.
  apply elem_of_cons in H as [H|H];
    [|apply list_elem_of_singleton in H];
    apply spec_failure_entry_occurs in H; by vm_compute in H.
Qed.

(** C1, amended. Whatever the collaborators do, every turn of the action
    loop returns normally (a failing call is caught and logged inside
    the capability), so the actions after any position still run; the
    dispatch returns, and the incident's [actions_taken] holds exactly
    one entry per recognized action, in the declared order: the entry
    of a successful action, also for an action whose call failed. The
    calls attempted are those of every action, in order, followed by the
    indexing of the incident. *)
Theorem C1_failures_isolated event playbook pre action post st :
  actions playbook = pre ++ action :: post →
  let entries := flat_map (action_entry event) in
  (∃ st1 st2 st3,
      for_ pre (run_action event) [] st = (Return (entries pre), st1)
      ∧ run_action event (entries pre) action st1
        = (Return (entries pre ++ action_entry event action), st2)
      ∧ for_ post (run_action event) (entries pre ++ action_entry event action) st2
        = (Return (entries (actions playbook)), st3)
      ∧ for_ (actions playbook) (run_action event) [] st
        = (Return (entries (actions playbook)), st3))
  ∧ ∃ st' incident,
      execute_playbook event playbook st = (Return tt, st')
      ∧ incidents st' !! make_incident_id (clock st (reads st)) event = Some incident
      ∧ actions_taken incident = entries (actions playbook)
      ∧ length (actions_taken incident) = length (List.filter recognized (actions playbook))
      ∧ targets (trace st') =
          targets (trace st) ++ flat_map (action_targets st event) (actions playbook)
          ++ [Index "security-incidents"].
Proof.
  intros Hacts entries. split.
  - subst entries.
    destruct (for_run_action_runs event pre [] st) as (st1 & E1 & _).
    cbn [app] in E1.
    destruct (run_action_runs event (flat_map (action_entry event) pre) action st1)
      as (st2 & E2 & _).
    destruct (for_run_action_runs event post
                (flat_map (action_entry event) pre ++ action_entry event action) st2)
      as (st3 & E3 & _).
    assert (flat_map (action_entry event) (actions playbook)
            = (flat_map (action_entry event) pre ++ action_entry event action)
              ++ flat_map (action_entry event) post) as Hall.
    { rewrite Hacts, flat_map_app. cbn [flat_map]. by rewrite app_assoc. }
    exists st1, st2, st3. rewrite Hall. repeat split; try done.
    rewrite Hacts, for_app. unfold bind at 1. rewrite E1. cbn [for_].
    unfold bind at 1. rewrite E2. exact E3.
  - destruct (execute_playbook_incident event playbook st)
      as (st' & created & E & L & T).
    exists st', (incident_of event (clock st (reads st)) created playbook).
    repeat split; try done. apply entries_length.
Qed.

Lemma C1_witness :
  actions sql_playbook = [] ++ mk_action (Some "block_ip") no_params
                               :: [mk_action (Some "send_alert") no_params]
  ∧ ∃ st' incident,
      execute_playbook sql_event sql_playbook firewall_down = (Return tt, st')
      ∧ incidents st' !! make_incident_id noon sql_event = Some incident
      ∧ actions_taken incident = ["Blocked IP: 10.0.0.5"; "Sent security alert"].
Proof.
  split; [reflexivity|].
  destruct (C1_failures_isolated sql_event sql_playbook []
              (mk_action (Some "block_ip") no_params)
              [mk_action (Some "send_alert") no_params] firewall_down)
    as (_ & st' & incident & E & L & A & _); [reflexivity|].
  exists st', incident. repeat split; assumption.
Defined.

(** C4, as stated, fails: in the dispatch of the scenario the call to the
    block list, made by the first action, comes before the write of the
    incident to the store; the incident is written once, after the calls
    of the actions, and indexed after that. *)
Lemma C4_counterexample :
  let run := execute_playbook sql_event sql_playbook (calm frozen_clock) in
  fst run = Return tt
  ∧ steps (trace (snd run))
    = [DidCall (Index "security-blocklist");
       DidStore "incident-20250814-123045-sql_injection";
       DidCall (Index "security-incidents")]
  ∧ status <$> (incidents (snd run) !! "incident-20250814-123045-sql_injection")
    = Some "active".
Proof. by vm_compute. Qed.

(** C4, amended. A dispatch runs all the actions of the playbook first and
    creates the incident after them: of the calls and of the writes to
    the store that the dispatch makes, the calls of the actions come
    first, in the declared order; then comes the one write to the store,
    of the incident with status [active] and the entries of the actions
    under the id of the dispatch; then the indexing of that incident. *)
Theorem C4_incident_created_after_actions event playbook st :
  let id := make_incident_id (clock st (reads st)) event in
  ∃ st' created,
    execute_playbook event playbook st = (Return tt, st')
    ∧ steps (trace st')
      = steps (trace st)
        ++ map DidCall (flat_map (action_targets st event) (actions playbook))
        ++ [DidStore id; DidCall (Index "security-incidents")]
    ∧ incidents st'
      = <[id := mk_incident id (severity event) "active"
                  (flat_map (action_entry event) (actions playbook)) created false]>
          (incidents st).
Proof.
  intros id.
  destruct (execute_playbook_full event playbook st) as (st' & created & E & F & _ & S).
  exists st', created. split; [done|]. split; [done|].
  by rewrite (fr_incidents _ _ F).
Qed.

(** C5, as stated, fails: an action of unknown type leaves no entry in
    [actions_taken] and no line in the log. *)
Lemma C5_counterexample :
  let run := execute_playbook sql_event reboot_playbook (calm frozen_clock) in
  recognized (mk_action (Some "reboot_host") no_params) = false
  ∧ actions_taken <$> (incidents (snd run) !! "incident-20250814-123045-sql_injection")
    = Some ["Sent security alert"]
  ∧ (spec_skipped_entry ∉ ["Sent security alert"])
  ∧ log_lines (trace (snd run))
    = [(INFO, "Executing playbook 'reboot' for incident incident-20250814-123045-sql_injection");
       (INFO, "Security alert sent successfully");
       (INFO, "Playbook execution completed for incident incident-20250814-123045-sql_injection")].
Proof.
  split; [by vm_compute|]. split; [by vm_compute|]. split; [|by vm_compute].
  intros H. apply list_elem_of_singleton in H. discriminate H.
Qed.

Lemma unrecognized_types action :
  recognized action = false →
  is_type (action_type action) "block_ip" = false
  ∧ is_type (action_type action) "disable_user" = false
  ∧ is_type (action_type action) "send_alert" = false
  ∧ is_type (action_type action) "isolate_host" = false
  ∧ is_type (action_type action) "create_ticket" = false.
Proof.
  unfold recognized, known_action_types. cbn [existsb].
  rewrite !orb_false_iff. tauto.
Qed.

(** C5, amended. An action whose type is not a recognized capability tag
    is skipped silently: its turn of the loop changes neither
    [actions_taken] nor the state (nothing is logged, nothing is
    called), and the playbook runs as if the action were not there, so
    the remaining actions still run. *)
Theorem C5_unknown_type_skipped_silently event action pre post taken st :
  recognized action = false →
  run_action event taken action st = (Return taken, st)
  ∧ for_ (pre ++ action :: post) (run_action event) taken st
    = for_ (pre ++ post) (run_action event) taken st.
Proof.
  intros H. apply unrecognized_types in H as (H1 & H2 & H3 & H4 & H5).
  assert (∀ l s, run_action event l action s = (Return l, s)) as Hskip.
  { intros l s. unfold run_action. by rewrite H1, H2, H3, H4, H5. }
  split; [apply Hskip|].
  rewrite !for_app. unfold bind.
  destruct (for_ pre (run_action event) taken st) as [[l|e] st1]; [|done].
  cbn [for_]. unfold bind. by rewrite Hskip.
Qed.

Lemma C5_witness :
  recognized (mk_action (Some "reboot_host") no_params) = false
  ∧ for_ (actions reboot_playbook) (run_action sql_event) [] (calm frozen_clock)
    = for_ [mk_action (Some "send_alert") no_params] (run_action sql_event) []
        (calm frozen_clock).
Proof.
  split; [reflexivity|].
  apply (C5_unknown_type_skipped_silently sql_event
           (mk_action (Some "reboot_host") no_params) []
           [mk_action (Some "send_alert") no_params] [] (calm frozen_clock)).
  reflexivity.
Defined.

End DispatcherCorrections.

(** ** Claims about the matcher *)

Section MatcherClaims.

Import Scenario.

(** C2, as stated, fails: a playbook whose threshold is no severity
    does not pass the gate for an event of severity [high]. *)
Lemma C2_counterexample :
  (severity_threshold urgent_playbook ∉ known_severities)
  ∧ severity_gate high_event urgent_playbook = false
  ∧ event_matches_playbook high_event urgent_playbook = false.
Proof.
  split; [|by vm_compute].
  unfold known_severities. rewrite !not_elem_of_cons.
  repeat split; try done. apply not_elem_of_nil.
Qed.

(** C2, amended. In the severity gate an unknown severity of the event
    ranks 0, but an unknown threshold of the playbook ranks 5, the rank
    of [critical]: a playbook whose [severity_threshold] is none of
    info, low, medium, high, critical passes the gate exactly for the
    events of severity [critical]; an event of unknown severity never
    passes it. *)
Theorem C2_unknown_threshold_ranks_critical event playbook :
  severity_threshold playbook ∉ known_severities →
  threshold_severity playbook = 5
  ∧ (severity_gate event playbook = true ↔ severity event = "critical")
  ∧ (severity event ∉ known_severities →
     event_severity event = 0 ∧ severity_gate event playbook = false).
Proof.
  intros H. pose proof (threshold_severity_unknown playbook H) as Ht.
  split; [done|]. split.
  - rewrite severity_gate_spec, Ht. apply rank_five.
  - intros He. pose proof (event_severity_unknown event He) as E0.
    split; [done|]. unfold severity_gate. by rewrite Ht, E0.
Qed.

Lemma C2_witness :
  (severity_threshold urgent_playbook ∉ known_severities)
  ∧ severity_gate sql_event urgent_playbook = true.
Proof.
  assert (severity_threshold urgent_playbook ∉ known_severities) as H.
  { unfold known_severities. rewrite !not_elem_of_cons.
    repeat split; try done. apply not_elem_of_nil. }
  split; [exact H|].
  apply (C2_unknown_threshold_ranks_critical sql_event urgent_playbook H).
  reflexivity.
Defined.

(** C3, as stated, fails: the trigger [sql], written in lower case, is a
    case-insensitive substring of the event type [SQL_INJECTION], the
    playbook is enabled and passes the gate, and the matcher rejects it,
    the event type being compared as written. *)
Lemma C3_counterexample :
  enabled alert_playbook = true
  ∧ severity_gate shouted_event alert_playbook = true
  ∧ Forall (λ trigger, Str.lower trigger = trigger) (triggers alert_playbook)
  ∧ spec_trigger_test shouted_event alert_playbook
  ∧ event_matches_playbook shouted_event alert_playbook = false.
Proof.
  split; [done|]. split; [by vm_compute|]. split; [by repeat constructor|].
  split; [|by vm_compute].
  exists "sql". split; [by left|]. left.
  by exists EmptyString, "_injection".
Qed.

(** C3, amended. For an enabled playbook that passes the severity gate
    and whose triggers are written in lower case, the playbook matches
    if and only if some trigger is a substring of [event.event_type]
    (compared as written), or a case-insensitive substring of
    [event.description], or a substring of some entry of [event.tags]
    (compared as written). *)
Theorem C3_trigger_test event playbook :
  enabled playbook = true →
  severity_gate event playbook = true →
  (∀ trigger, trigger ∈ triggers playbook → Str.lower trigger = trigger) →
  event_matches_playbook event playbook = true ↔ lowercase_trigger_test event playbook.
Proof.
  intros He Hg Hlow. rewrite event_matches_playbook_spec.
  unfold lowercase_trigger_test, Str.occurs_in_nocase. split.
  - intros (_ & _ & t & Ht & Hhit). exists t. split; [done|].
    rewrite (Hlow t Ht). by apply trigger_hits_spec.
  - intros (t & Ht & Hhit). repeat split; try done.
    exists t. split; [done|]. apply trigger_hits_spec.
    by rewrite (Hlow t Ht) in Hhit.
Qed.

Lemma C3_witness :
  enabled alert_playbook = true
  ∧ severity_gate injection_event alert_playbook = true
  ∧ (∀ trigger, trigger ∈ triggers alert_playbook → Str.lower trigger = trigger)
  ∧ event_matches_playbook injection_event alert_playbook = true.
Proof.
  assert (∀ trigger, trigger ∈ triggers alert_playbook → Str.lower trigger = trigger)
    as Hlow.
  { intros t Ht. apply list_elem_of_singleton in Ht. by subst t. }
  split; [reflexivity|]. split; [reflexivity|]. split; [exact Hlow|].
  apply (C3_trigger_test injection_event alert_playbook); [reflexivity .. | exact Hlow |].
  exists "sql". split; [by left|]. right; left.
  by exists "detected ", " injection attempt".
Defined.

End MatcherClaims.

(** ** Event monitor *)

Section Monitor.

Import Scenario.

Lemma frame_env_refl st : frame_env st st.
Proof. by constructor. Qed.

Lemma frame_env_trans st1 st2 st3 :
  frame_env st1 st2 → frame_env st2 st3 → frame_env st1 st3.
Proof. intros [] []. constructor; etrans; eauto. Qed.


Lemma action_targets_not_incident st event action :
  List.filter is_incident_index (action_targets st event action) = [].
Proof.
  unfold action_targets.
  repeat (destruct (is_type (action_type action) _));
    repeat (destruct (Str.truthy _)); repeat (destruct (nonempty _)); reflexivity.
Qed.

Lemma actions_targets_not_incident st event acts :
  List.filter is_incident_index (flat_map (action_targets st event) acts) = [].
Proof.
  induction acts as [|a acts IH]; [done|]. cbn [flat_map].
  by rewrite List.filter_app, action_targets_not_incident, IH.
Qed.

(** A dispatch hands exactly one incident to the store. *)
Lemma execute_playbook_stores event playbook st :
  ∃ st', execute_playbook event playbook st = (Return tt, st')
         ∧ frame_env st st'
         ∧ stored_incidents (trace st') = S (stored_incidents (trace st)).
Proof.
  destruct (execute_playbook_runs event playbook st) as (st' & created & E & F & T).
  exists st'. split; [done|]. split.
  - destruct F. by constructor.
  - unfold stored_incidents. rewrite T, !List.filter_app, !length_app.
    rewrite actions_targets_not_incident. cbn. lia.
Qed.

(** The loop of [process_security_event] over the registry dispatches
    once per matching playbook. *)
Lemma dispatch_matching event registry st :
  ∃ st',
    for_ registry
      (λ _ playbook, if event_matches_playbook event playbook
                     then execute_playbook event playbook else ret tt) tt st
    = (Return tt, st')
    ∧ frame_env st st'
    ∧ stored_incidents (trace st')
      = stored_incidents (trace st)
        + length (List.filter (event_matches_playbook event) registry).
Proof.
  revert st. induction registry as [|p registry IH]; intros st; cbn [for_ List.filter].
  - exists st. split; [done|]. split; [apply frame_env_refl | cbn; lia].
  - unfold bind. destruct (event_matches_playbook event p).
    + destruct (execute_playbook_stores event p st) as (st1 & E1 & F1 & S1).
      rewrite E1. destruct (IH st1) as (st2 & E2 & F2 & S2).
      exists st2. split; [done|]. split; [by eapply frame_env_trans|].
      rewrite S2, S1. cbn [length]. lia.
    + cbn. destruct (IH st) as (st2 & E2 & F2 & S2). by exists st2.
Qed.

Lemma matches_normalize event_data t1 t2 :
  event_matches_playbook (normalize event_data t1)
  = event_matches_playbook (normalize event_data t2).
Proof. reflexivity. Qed.

(** Processing a record dispatches every playbook of the registry the
    record matches, every time it is processed. *)
Lemma process_security_event_stores event_data st :
  well_timed event_data = true →
  ∃ st', process_security_event event_data st = (Return tt, st')
         ∧ frame_env st st'
         ∧ stored_incidents (trace st')
           = stored_incidents (trace st)
             + length (matching_playbooks event_data (playbooks st)).
Proof.
  unfold well_timed, matching_playbooks. intros Hts.
  set (st0 := set_reads (S (reads st)) st).
  assert (∀ ts,
    ∃ st', for_ (playbooks st0)
             (λ _ playbook, if event_matches_playbook (normalize event_data ts) playbook
                            then execute_playbook (normalize event_data ts) playbook
                            else ret tt) tt st0 = (Return tt, st')
           ∧ frame_env st st'
           ∧ stored_incidents (trace st')
             = stored_incidents (trace st)
               + length (List.filter
                   (event_matches_playbook
                      (normalize event_data (mk_datetime 0 0 0 0 0 0 0)))
                   (playbooks st))) as Hloop.
  { intros ts.
    destruct (dispatch_matching (normalize event_data ts) (playbooks st0) st0)
      as (st' & E & F & S).
    exists st'. split; [done|]. split.
    - destruct F. by constructor.
    - rewrite S. by rewrite (matches_normalize event_data ts (mk_datetime 0 0 0 0 0 0 0)). }
  unfold process_security_event, try_except.
  unfold bind at 1. unfold now at 1. fold st0.
  destruct (raw_timestamp event_data) as [|text|text d]; [|done|].
  - destruct (Hloop (clock st (reads st))) as (st' & E & F & S).
    exists st'. split; [|done].
    unfold bind at 1. unfold ret at 1. unfold bind at 1. unfold gets at 1.
    by rewrite E.
  - destruct (Hloop d) as (st' & E & F & S).
    exists st'. split; [|done].
    unfold bind at 1. unfold ret at 1. unfold bind at 1. unfold gets at 1.
    by rewrite E.
Qed.


End Monitor.

(** ** Claims about the event monitor and the incident store *)

Section MonitorClaims.

Import Scenario.




(** C7. The incident id is the creation instant cut to the second
    followed by the event type: one event that matches two playbooks is
    dispatched twice within the same second, both dispatches get the
    same id although their creation instants differ, and the second
    incident replaces the first in the store. *)
Theorem C7_incident_id_collision :
  let st' := snd (process_security_event sql_raw two_playbooks) in
  matching_playbooks sql_raw (playbooks two_playbooks) = [sql_playbook; alert_playbook]
  ∧ microsecond_clock 1 ≠ microsecond_clock 4
  ∧ make_incident_id (microsecond_clock 1) sql_event
    = make_incident_id (microsecond_clock 4) sql_event
  ∧ stored_incidents (trace st') = 2
  ∧ size (incidents st') = 1
  ∧ actions_taken <$> (incidents st' !! "incident-20250814-123045-sql_injection")
    = Some ["Sent security alert"].
Proof. by vm_compute. Qed.

(** Whatever lies below the second plays no part in the id. *)
Lemma make_incident_id_same_second y mo d h mi sec us1 us2 event :
  make_incident_id (mk_datetime y mo d h mi sec us1) event
  = make_incident_id (mk_datetime y mo d h mi sec us2) event.
Proof. reflexivity. Qed.

End MonitorClaims.

(** ** Playbook registry *)

Section Registry.

Import Scenario.

Lemma load_well_formed files st :
  forallb (λ f, negb (malformed f)) files = true →
  for_ files (λ _ f, load_file f) tt st
  = (Return tt, set_playbooks (playbooks st ++ well_formed_playbooks files) st).
Proof.
  revert st. induction files as [|f files IH]; intros st H.
  - destruct st. cbn. by rewrite app_nil_r.
  - cbn [forallb] in H. apply andb_true_iff in H as [Hf H].
    cbn [for_ well_formed_playbooks flat_map]. unfold bind, load_file.
    unfold malformed in Hf.
    destruct (is_playbook_file f); [destruct (content f) as [e|p]; [done|]|].
    + unfold modify. rewrite (IH _ H). f_equal.
      destruct st. cbn. by rewrite <- app_assoc.
    + unfold ret. rewrite (IH _ H). done.
Qed.

(** C9, as stated, fails: the directory holds a malformed file followed
    by a well-formed one; start-up succeeds, and the well-formed file is
    not loaded. *)
Lemma C9_counterexample :
  let run := initialize one_bad_file in
  playbooks_dir one_bad_file = Some [bad_file; good_file]
  ∧ malformed bad_file = true
  ∧ malformed good_file = false
  ∧ fst run = Return tt
  ∧ playbooks (snd run) = [].
Proof. by vm_compute. Qed.

(** C9, amended. When the listing of the playbook directory contains a
    malformed file, loading stops at that file: the error is logged, the
    well-formed files listed before it are loaded, no file listed after
    it is, and the process does not fail to start. *)
Theorem C9_loading_stops_at_malformed_file st pre bad post e :
  playbooks_dir st = Some (pre ++ bad :: post) →
  forallb (λ f, negb (malformed f)) pre = true →
  is_playbook_file bad = true →
  content bad = inl e →
  ∃ st', initialize st = (Return tt, st')
         ∧ playbooks st' = playbooks st ++ well_formed_playbooks pre
         ∧ trace st' = trace st
             ++ [Logged ERROR ("Failed to load playbooks: " +:+ e);
                 Logged INFO "Security orchestrator initialized successfully"].
Proof.
  intros Hdir Hpre Hbad He.
  eexists. split.
  - unfold initialize, try_except at 1. unfold bind at 1.
    unfold load_playbooks, try_except. unfold bind at 1. unfold gets at 1.
    rewrite Hdir. unfold bind at 1.
    rewrite for_app. unfold bind at 1. rewrite (load_well_formed pre st Hpre).
    cbn [for_]. unfold bind at 1. unfold load_file. rewrite Hbad, He.
    unfold raise, log, modify. reflexivity.
  - split; [done|]. cbn. by rewrite <- app_assoc.
Qed.

Lemma C9_witness :
  playbooks_dir bad_file_last = Some ([good_file] ++ bad_file :: [])
  ∧ forallb (λ f, negb (malformed f)) [good_file] = true
  ∧ is_playbook_file bad_file = true
  ∧ content bad_file = inl "mapping values are not allowed here"
  ∧ ∃ st', initialize bad_file_last = (Return tt, st')
           ∧ playbooks st' = [sql_playbook].
Proof.
  repeat (split; [reflexivity|]).
  destruct (C9_loading_stops_at_malformed_file bad_file_last [good_file] bad_file []
              "mapping values are not allowed here")
    as (st' & E & P & _); try reflexivity.
  exists st'. split; [exact E | exact P].
Defined.

End Registry.

(** * Further properties *)

(** ** Matcher *)

Section MatcherFacts.

Import Scenario.

(** X1. The matcher in full: a playbook matches an event exactly when it is
    enabled, the rank of its threshold does not exceed the rank of the
    event's severity, and one of its triggers occurs as a block of
    consecutive characters in the event type, in the lower-cased
    description or in one of the tags. *)
Theorem event_matches_playbook_characterised event playbook :
  event_matches_playbook event playbook = true ↔
  enabled playbook = true
  ∧ threshold_severity playbook ≤ event_severity event
  ∧ ∃ trigger, trigger ∈ triggers playbook ∧
      (Str.occurs_in trigger (event_type event)
       ∨ Str.occurs_in trigger (Str.lower (description event))
       ∨ ∃ tag, tag ∈ tags event ∧ Str.occurs_in trigger tag).
Proof.
  rewrite event_matches_playbook_spec, severity_gate_spec.
  by setoid_rewrite trigger_hits_spec.
Qed.

(** X2. On the five severities the gate is the order
    info < low < medium < high < critical: a playbook passes it exactly when
    its threshold does not come after the severity of the event. *)
Theorem severity_gate_known_order event playbook i j :
  known_severities !! i = Some (severity event) →
  known_severities !! j = Some (severity_threshold playbook) →
  severity_gate event playbook = true ↔ j ≤ i.
Proof.
  intros Hi Hj. rewrite severity_gate_spec.
  unfold event_severity, threshold_severity.
  destruct i as [|[|[|[|[|i]]]]]; [| | | | |done];
    destruct j as [|[|[|[|[|j]]]]]; [| | | | |done| | | | | |done| | | | | |done
                                     | | | | | |done| | | | | |done];
    injection Hi as <-; injection Hj as <-; vm_compute; split; intros; lia.
Qed.

Lemma severity_gate_known_order_witness :
  known_severities !! 4 = Some (severity sql_event)
  ∧ known_severities !! 3 = Some (severity_threshold sql_playbook)
  ∧ severity_gate sql_event sql_playbook = true.
Proof.
  split; [reflexivity|]. split; [reflexivity|].
  apply (severity_gate_known_order sql_event sql_playbook 4 3);
    [reflexivity | reflexivity | lia].
Defined.

Lemma lower_ascii_not_upper c : is_upper (Str.lower_ascii c) = false.
Proof. by destruct c as [[] [] [] [] [] [] [] []]. Qed.

Lemma has_upper_lower s : has_upper (Str.lower s) = false.
Proof.
  induction s as [|c s IH]; [done|]. cbn [Str.lower has_upper].
  by rewrite lower_ascii_not_upper, IH.
Qed.

Lemma has_upper_append a b : has_upper (a +:+ b) = has_upper a || has_upper b.
Proof.
  induction a as [|c a IH]; [done|]. simpl.
  by rewrite IH, orb_assoc.
Qed.

(** X3. A trigger that holds an upper-case letter never hits the description:
    the description is lower-cased before the test and the trigger is
    not. *)
Theorem upper_case_trigger_misses_description event trigger :
  has_upper trigger = true →
  Str.str_in trigger (Str.lower (description event)) = false
  ∧ trigger_hits event trigger
    = Str.str_in trigger (event_type event)
      || existsb (λ tag, Str.str_in trigger tag) (tags event).
Proof.
  intros Hup.
  assert (Str.str_in trigger (Str.lower (description event)) = false) as Hmiss.
  { apply str_in_false. intros (a & b & Heq).
    pose proof (has_upper_lower (description event)) as Hlow.
    rewrite Heq, !has_upper_append, Hup, orb_true_r in Hlow. discriminate. }
  split; [done|]. unfold trigger_hits. by rewrite Hmiss, orb_false_r.
Qed.

Lemma upper_case_trigger_misses_description_witness :
  has_upper "SQL" = true
  ∧ Str.str_in "SQL" (Str.lower (description injection_event)) = false.
Proof.
  split; [reflexivity|].
  apply (upper_case_trigger_misses_description injection_event "SQL").
  reflexivity.
Defined.

Lemma startswith_empty s : Str.startswith EmptyString s = true.
Proof. by destruct s. Qed.

Lemma str_in_empty s : Str.str_in EmptyString s = true.
Proof. destruct s; cbn [Str.str_in]; by rewrite startswith_empty. Qed.

(** X4. A playbook without triggers matches no event; and, the empty
    trigger being a substring of every text, an enabled playbook that
    lists it matches every event that passes its severity gate. *)
Theorem empty_trigger_matches_all event :
  (∀ playbook, triggers playbook = [] → event_matches_playbook event playbook = false)
  ∧ (∀ playbook,
       enabled playbook = true →
       severity_gate event playbook = true →
       EmptyString ∈ triggers playbook →
       event_matches_playbook event playbook = true).
Proof.
  split.
  - intros playbook H. unfold event_matches_playbook. rewrite H. cbn [existsb].
    destruct (enabled playbook); [|done]. cbn [negb]. by destruct (Nat.ltb _ _).
  - intros playbook He Hg Hin.
    apply event_matches_playbook_spec. repeat split; try done.
    exists EmptyString. split; [done|]. unfold trigger_hits.
    by rewrite str_in_empty.
Qed.

Lemma empty_trigger_matches_all_witness :
  enabled (mk_playbook "any" [EmptyString] "low" [] true) = true
  ∧ severity_gate high_event (mk_playbook "any" [EmptyString] "low" [] true) = true
  ∧ event_matches_playbook high_event (mk_playbook "any" [EmptyString] "low" [] true) = true
  ∧ event_matches_playbook high_event (mk_playbook "none" [] "low" [] true) = false.
Proof.
  split; [reflexivity|]. split; [reflexivity|].
  destruct (empty_trigger_matches_all high_event) as [Hnone Hany].
  split.
  - apply (Hany (mk_playbook "any" [EmptyString] "low" [] true));
      [reflexivity | reflexivity | by left].
  - apply (Hnone (mk_playbook "none" [] "low" [] true)). reflexivity.
Defined.

(** Only the threshold [info] has rank 1 or less. *)
Lemma rank_one t : dict_get severity_levels t 5 ≤ 1 ↔ t = "info".
Proof.
  unfold dict_get, severity_levels.
  destruct (decide (t = "info")) as [->|]; [vm_compute; split; intros; (lia || done)|].
  destruct (decide (t = "low")) as [->|]; [vm_compute; split; intros; (lia || done)|].
  destruct (decide (t = "medium")) as [->|]; [vm_compute; split; intros; (lia || done)|].
  destruct (decide (t = "high")) as [->|]; [vm_compute; split; intros; (lia || done)|].
  destruct (decide (t = "critical")) as [->|]; [vm_compute; split; intros; (lia || done)|].
  rewrite !lookup_insert_ne by done. rewrite lookup_singleton_ne by done.
  split; [lia | done].
Qed.

Lemma info_event_matches event playbook :
  severity event = "info" →
  event_matches_playbook event playbook = true →
  severity_threshold playbook = "info".
Proof.
  intros Hs Hm. apply event_matches_playbook_spec in Hm as (_ & Hg & _).
  apply severity_gate_spec in Hg. unfold event_severity in Hg. rewrite Hs in Hg.
  by apply rank_one.
Qed.

(** X5. A raw record without [security_severity] is given the severity
    [info]: of the playbooks of the registry it can match only those
    whose threshold is [info]. *)
Theorem missing_severity_matches_info_only event_data registry playbook :
  raw_security_severity event_data = None →
  playbook ∈ matching_playbooks event_data registry →
  severity_threshold playbook = "info" ∧ playbook ∈ registry.
Proof.
  intros Hnone Hin. unfold matching_playbooks in Hin.
  apply list_elem_of_In, List.filter_In in Hin as [Hreg Hm].
  split; [|by apply list_elem_of_In].
  eapply info_event_matches; [|exact Hm]. cbn. by rewrite Hnone.
Qed.

Lemma missing_severity_matches_info_only_witness :
  raw_security_severity (event_dict sql_event) = None
  ∧ mk_playbook "log" ["sql"] "info" [] true
    ∈ matching_playbooks (event_dict sql_event)
        [sql_playbook; mk_playbook "log" ["sql"] "info" [] true]
  ∧ severity_threshold (mk_playbook "log" ["sql"] "info" [] true) = "info".
Proof.
  assert (mk_playbook "log" ["sql"] "info" [] true
          ∈ matching_playbooks (event_dict sql_event)
              [sql_playbook; mk_playbook "log" ["sql"] "info" [] true]) as Hin.
  { vm_compute. left. }
  split; [reflexivity|]. split; [exact Hin|].
  apply (missing_severity_matches_info_only (event_dict sql_event)
           [sql_playbook; mk_playbook "log" ["sql"] "info" [] true]
           (mk_playbook "log" ["sql"] "info" [] true) eq_refl Hin).
Defined.

End MatcherFacts.

(** ** Incident ids *)

Section IncidentIds.

Import Scenario.

Lemma length_append a b :
  String.length (a +:+ b) = String.length a + String.length b.
Proof. induction a as [|c a IH]; simpl; [done | by rewrite IH]. Qed.

Lemma append_inj_length a b c d :
  String.length a = String.length c → a +:+ b = c +:+ d → a = c ∧ b = d.
Proof.
  revert c. induction a as [|x a IH]; intros [|y c] Hlen H; simpl in *; try done.
  injection H as -> H. injection Hlen as Hlen.
  destruct (IH c Hlen H) as [-> ->]. done.
Qed.

Lemma length_zpad w n : String.length (zpad w n) = w.
Proof.
  revert n. induction w as [|w IH]; intros n; [done|].
  cbn [zpad]. rewrite length_append, IH. simpl. lia.
Qed.

Lemma digit_eq n m : digit n = digit m → n mod 10 = m mod 10.
Proof.
  unfold digit. intros H. apply (f_equal nat_of_ascii) in H.
  pose proof (Nat.mod_upper_bound n 10). pose proof (Nat.mod_upper_bound m 10).
  rewrite !nat_ascii_embedding in H by lia. lia.
Qed.

Lemma zpad_inj w n m :
  n < 10 ^ w → m < 10 ^ w → zpad w n = zpad w m → n = m.
Proof.
  revert n m. induction w as [|w IH]; intros n m Hn Hm H.
  - simpl in *. lia.
  - cbn [zpad] in H.
    apply append_inj_length in H as [Hhigh Hlow]; [|by rewrite !length_zpad].
    injection Hlow as Hlow. apply digit_eq in Hlow.
    rewrite Nat.pow_succ_r' in Hn, Hm.
    assert (n / 10 = m / 10) as Hdiv.
    { apply IH; [| |done]; apply Nat.Div0.div_lt_upper_bound; lia. }
    rewrite (Nat.div_mod_eq n 10), (Nat.div_mod_eq m 10). lia.
Qed.

Lemma strftime_length t : String.length (strftime t) = 15.
Proof.
  unfold strftime. rewrite !length_append, !length_zpad. done.
Qed.

Lemma strftime_same_second t1 t2 :
  valid_datetime t1 → valid_datetime t2 →
  strftime t1 = strftime t2 ↔ same_second t1 t2.
Proof.
  intros (Hy1 & Hmo1 & Hd1 & Hh1 & Hmi1 & Hs1) (Hy2 & Hmo2 & Hd2 & Hh2 & Hmi2 & Hs2).
  split.
  - unfold strftime. intros H.
    apply append_inj_length in H as [Hy H]; [|by rewrite !length_zpad].
    apply append_inj_length in H as [Hmo H]; [|by rewrite !length_zpad].
    apply append_inj_length in H as [Hd H]; [|by rewrite !length_zpad].
    apply append_inj_length in H as [_ H]; [|done].
    apply append_inj_length in H as [Hh H]; [|by rewrite !length_zpad].
    apply append_inj_length in H as [Hmi Hs]; [|by rewrite !length_zpad].
    assert (10 ^ 2 = 100) as E by done.
    repeat split; (eapply zpad_inj; [| |eassumption]); lia.
  - intros (Ey & Emo & Ed & Eh & Emi & Es). unfold strftime.
    by rewrite Ey, Emo, Ed, Eh, Emi, Es.
Qed.

(** X6. Two dispatches get the same incident id exactly when their creation
    instants fall in the same second and their events have the same
    type; the playbook and the fraction of the second play no part. *)
Theorem incident_ids_collide_iff t1 t2 event1 event2 :
  valid_datetime t1 → valid_datetime t2 →
  make_incident_id t1 event1 = make_incident_id t2 event2
  ↔ same_second t1 t2 ∧ event_type event1 = event_type event2.
Proof.
  intros V1 V2. rewrite <- (strftime_same_second t1 t2 V1 V2).
  unfold make_incident_id. split.
  - intros H.
    apply append_inj_length in H as [_ H]; [|done].
    apply append_inj_length in H as [Ht H]; [|by rewrite !strftime_length].
    by injection H as H.
  - by intros [-> ->].
Qed.

Lemma microsecond_clock_valid n : valid_datetime (microsecond_clock n).
Proof.
  unfold valid_datetime, microsecond_clock. cbn [year month day hour minute second].
  repeat split; try lia. apply Nat.ltb_lt. by vm_compute.
Qed.

Lemma incident_ids_collide_iff_witness :
  valid_datetime (microsecond_clock 1)
  ∧ valid_datetime (microsecond_clock 4)
  ∧ make_incident_id (microsecond_clock 1) sql_event
    = make_incident_id (microsecond_clock 4) sql_event.
Proof.
  split; [apply microsecond_clock_valid|]. split; [apply microsecond_clock_valid|].
  apply (incident_ids_collide_iff (microsecond_clock 1) (microsecond_clock 4)
           sql_event sql_event
           (microsecond_clock_valid 1) (microsecond_clock_valid 4)).
  split; [by repeat split | reflexivity].
Defined.

End IncidentIds.

(** ** Dispatcher and capabilities *)

Section DispatcherFacts.

Import Scenario.

(** X7. The alert capability never raises, attempts one call at most (the
    post to the Slack webhook, and only when its address is configured;
    no e-mail is ever sent), and ends by logging the alert as sent, also
    when the post failed. *)
Theorem send_security_alert_always_reports_sent event params st :
  ∃ st', send_security_alert event params st = (Return tt, st')
         ∧ frame st st'
         ∧ targets (trace st')
           = targets (trace st)
             ++ (if nonempty (slack_webhook_url st)
                 then [Post (slack_webhook_url st)] else [])
         ∧ last (trace st') = Some (Logged INFO "Security alert sent successfully").
Proof.
  unfold send_security_alert, send_slack_alert, send_email_alert.
  destruct (nonempty (slack_webhook_url st)) eqn:S;
    destruct (nonempty (email_smtp_host st)) eqn:E;
    destruct (faults st) as [|[e|] rest] eqn:F;
    eexists;
    (split;
     [ unfold try_except, bind, log, now, call, modify, gets, ret; cbn;
       rewrite ?S, ?E; cbn; rewrite ?F, ?E; cbn; rewrite ?E; reflexivity
     | split;
       [ by constructor
       | split;
         [ cbn; rewrite ?targets_app; cbn; rewrite ?app_nil_r; reflexivity
         | cbn; apply last_snoc ] ] ]).
Qed.

Lemma unrecognized_entry event action :
  recognized action = false → action_entry event action = [].
Proof.
  intros H. apply unrecognized_types in H as (H1 & H2 & H3 & H4 & H5).
  unfold action_entry. by rewrite H1, H2, H3, H4, H5.
Qed.

Lemma unrecognized_targets st event action :
  recognized action = false → action_targets st event action = [].
Proof.
  intros H. apply unrecognized_types in H as (H1 & H2 & H3 & H4 & H5).
  unfold action_targets. by rewrite H1, H2, H3, H4, H5.
Qed.

Lemma unrecognized_actions st event acts :
  forallb (λ action, negb (recognized action)) acts = true →
  flat_map (action_entry event) acts = []
  ∧ flat_map (action_targets st event) acts = [].
Proof.
  induction acts as [|a acts IH]; intros H; [done|].
  cbn [forallb] in H. apply andb_true_iff in H as [Ha H].
  apply negb_true_iff in Ha. destruct (IH H) as [IH1 IH2].
  cbn [flat_map].
  by rewrite (unrecognized_entry event a Ha), (unrecognized_targets st event a Ha),
    IH1, IH2.
Qed.

(** X8. A playbook without any recognized action (an empty list of actions
    for one) is dispatched all the same: an incident with an empty
    [actions_taken] is put in the store and handed to the index, and that
    is the only call made. *)
Theorem dispatch_without_actions event playbook st :
  forallb (λ action, negb (recognized action)) (actions playbook) = true →
  ∃ st' incident,
    execute_playbook event playbook st = (Return tt, st')
    ∧ incidents st' !! make_incident_id (clock st (reads st)) event = Some incident
    ∧ actions_taken incident = []
    ∧ status incident = "active"
    ∧ targets (trace st') = targets (trace st) ++ [Index "security-incidents"].
Proof.
  intros H.
  destruct (execute_playbook_incident event playbook st) as (st' & created & E & L & T).
  exists st', (incident_of event (clock st (reads st)) created playbook).
  destruct (unrecognized_actions st event (actions playbook) H) as [He Ht].
  repeat split; try done. by rewrite T, Ht.
Qed.

Lemma dispatch_without_actions_witness :
  forallb (λ action, negb (recognized action))
    (actions (mk_playbook "watch" ["sql"] "info" [] true)) = true
  ∧ ∃ st' incident,
      execute_playbook sql_event (mk_playbook "watch" ["sql"] "info" [] true)
        (calm frozen_clock) = (Return tt, st')
      ∧ incidents st' !! make_incident_id noon sql_event = Some incident
      ∧ actions_taken incident = [].
Proof.
  split; [reflexivity|].
  destruct (dispatch_without_actions sql_event
              (mk_playbook "watch" ["sql"] "info" [] true) (calm frozen_clock))
    as (st' & incident & E & L & A & _); [reflexivity|].
  exists st', incident. repeat split; assumption.
Defined.

(** X9. A dispatch touches the store at one key only, the id it computed:
    the incident under any other id stays as it was. *)
Theorem dispatch_keeps_other_incidents event playbook st other :
  other ≠ make_incident_id (clock st (reads st)) event →
  ∃ st', execute_playbook event playbook st = (Return tt, st')
         ∧ incidents st' !! other = incidents st !! other.
Proof.
  intros Hne.
  destruct (execute_playbook_runs event playbook st) as (st' & created & E & F & _).
  exists st'. split; [done|]. rewrite (fr_incidents _ _ F).
  unfold put_incident. cbn. by rewrite lookup_insert_ne.
Qed.

Lemma dispatch_keeps_other_incidents_witness :
  "incident-20250814-123001-sql_injection" ≠ make_incident_id noon sql_event
  ∧ ∃ st', execute_playbook sql_event sql_playbook (calm frozen_clock) = (Return tt, st')
           ∧ incidents st' !! "incident-20250814-123001-sql_injection"
             = incidents (calm frozen_clock) !! "incident-20250814-123001-sql_injection".
Proof.
  assert ("incident-20250814-123001-sql_injection" ≠ make_incident_id noon sql_event)
    as Hne by (by vm_compute).
  split; [exact Hne|].
  apply (dispatch_keeps_other_incidents sql_event sql_playbook (calm frozen_clock)
           "incident-20250814-123001-sql_injection" Hne).
Defined.

(** X10. The count [get_stats] reports as [active_incidents] is the number of
    distinct ids in the store: a dispatch raises it by one when its id is
    new and leaves it as it is when the id is already taken; the count of
    playbooks does not move. *)
Theorem get_stats_after_dispatch event playbook st :
  ∃ st' before after,
    get_stats st = (Return before, st)
    ∧ execute_playbook event playbook st = (Return tt, st')
    ∧ get_stats st' = (Return after, st')
    ∧ loaded_playbooks after = loaded_playbooks before
    ∧ active_incidents after
      = match incidents st !! make_incident_id (clock st (reads st)) event with
        | Some _ => active_incidents before
        | None => S (active_incidents before)
        end.
Proof.
  destruct (execute_playbook_runs event playbook st) as (st' & created & E & F & _).
  exists st', (mk_stats (size (incidents st)) (length (playbooks st)) "active"),
    (mk_stats (size (incidents st')) (length (playbooks st')) "active").
  repeat split; try done.
  - cbn. by rewrite (fr_playbooks _ _ F).
  - cbn [active_incidents]. rewrite (fr_incidents _ _ F).
    unfold put_incident. cbn. rewrite map_size_insert.
    by destruct (incidents st !! _).
Qed.

End DispatcherFacts.

(** ** Event monitor *)

Section MonitorFacts.

Import Scenario.

Lemma grows_refl st : grows st st.
Proof. constructor; [apply frame_env_refl | done | done | done]. Qed.

Lemma grows_trans st1 st2 st3 : grows st1 st2 → grows st2 st3 → grows st1 st3.
Proof.
  intros [E1 D1 O1 P1] [E2 D2 O2 P2]. constructor.
  - by eapply frame_env_trans.
  - set_solver.
  - auto.
  - congruence.
Qed.

Lemma polls_app t1 t2 : polls (t1 ++ t2) = polls t1 + polls t2.
Proof. unfold polls. by rewrite targets_app, List.filter_app, length_app. Qed.

Lemma action_targets_no_search st event action :
  List.filter is_search (action_targets st event action) = [].
Proof.
  unfold action_targets.
  repeat (destruct (is_type (action_type action) _));
    repeat (destruct (Str.truthy _)); repeat (destruct (nonempty _)); reflexivity.
Qed.

Lemma actions_targets_no_search st event acts :
  List.filter is_search (flat_map (action_targets st event) acts) = [].
Proof.
  induction acts as [|a acts IH]; [done|]. cbn [flat_map].
  by rewrite List.filter_app, action_targets_no_search, IH.
Qed.

Lemma execute_playbook_grows event playbook st :
  ∃ st', execute_playbook event playbook st = (Return tt, st') ∧ grows st st'.
Proof.
  destruct (execute_playbook_runs event playbook st) as (st' & created & E & F & T).
  exists st'. split; [done|]. constructor.
  - destruct F. by constructor.
  - rewrite (fr_incidents _ _ F). unfold put_incident. cbn.
    apply dom_insert_subseteq.
  - intros Hok. rewrite (fr_incidents _ _ F). unfold put_incident. cbn.
    by apply map_Forall_insert_2.
  - unfold polls. rewrite T, !List.filter_app, actions_targets_no_search.
    cbn. by rewrite app_nil_r.
Qed.

Lemma dispatch_grows event registry st :
  ∃ st',
    for_ registry
      (λ _ playbook, if event_matches_playbook event playbook
                     then execute_playbook event playbook else ret tt) tt st
    = (Return tt, st')
    ∧ grows st st'.
Proof.
  revert st. induction registry as [|p registry IH]; intros st; cbn [for_].
  - exists st. split; [done | apply grows_refl].
  - unfold bind. destruct (event_matches_playbook event p).
    + destruct (execute_playbook_grows event p st) as (st1 & E1 & G1).
      rewrite E1. destruct (IH st1) as (st2 & E2 & G2).
      exists st2. split; [done | by eapply grows_trans].
    + cbn. apply IH.
Qed.

Lemma grows_set_reads n st : grows st (set_reads n st).
Proof. constructor; [by constructor | done | done | done]. Qed.

Lemma grows_emit_log level msg st : grows st (emit (Logged level msg) st).
Proof.
  constructor; [by constructor | done | done |].
  change (trace (emit (Logged level msg) st)) with (trace st ++ [Logged level msg]).
  rewrite polls_app. cbn. lia.
Qed.

(** X11. A malformed timestamp drops the record: the error is logged, nothing
    is called, no playbook is dispatched. *)
Theorem process_security_event_drops_malformed event_data text st :
  raw_timestamp event_data = TsInvalid text →
  ∃ st', process_security_event event_data st = (Return tt, st')
         ∧ incidents st' = incidents st
         ∧ targets (trace st') = targets (trace st)
         ∧ trace st'
           = trace st
             ++ [Logged ERROR ("Error processing security event: "
                               +:+ "Invalid isoformat string: '" +:+ text +:+ "'")].
Proof.
  intros H. eexists. split.
  - unfold process_security_event, try_except, bind, now. rewrite H.
    unfold raise, log, modify. reflexivity.
  - split; [done|]. split; [|done].
    cbn. rewrite targets_app. cbn. by rewrite app_nil_r.
Qed.

Lemma process_security_event_drops_malformed_witness :
  raw_timestamp (mk_raw (TsInvalid "yesterday") None None None None None None None)
  = TsInvalid "yesterday"
  ∧ ∃ st', process_security_event
             (mk_raw (TsInvalid "yesterday") None None None None None None None)
             overlapping_polls = (Return tt, st')
           ∧ incidents st' = incidents overlapping_polls.
Proof.
  split; [reflexivity|].
  destruct (process_security_event_drops_malformed
              (mk_raw (TsInvalid "yesterday") None None None None None None None)
              "yesterday" overlapping_polls eq_refl) as (st' & E & I & _).
  exists st'. split; [exact E | exact I].
Defined.

Lemma process_security_event_grows event_data st :
  ∃ st', process_security_event event_data st = (Return tt, st') ∧ grows st st'.
Proof.
  set (st0 := set_reads (S (reads st)) st).
  assert (∀ ts,
    ∃ st', for_ (playbooks st0)
             (λ _ playbook, if event_matches_playbook (normalize event_data ts) playbook
                            then execute_playbook (normalize event_data ts) playbook
                            else ret tt) tt st0 = (Return tt, st')
           ∧ grows st st') as Hloop.
  { intros ts.
    destruct (dispatch_grows (normalize event_data ts) (playbooks st0) st0)
      as (st' & E & G).
    exists st'. split; [done|].
    eapply grows_trans; [apply (grows_set_reads (S (reads st)) st) | exact G]. }
  unfold process_security_event, try_except.
  unfold bind at 1. unfold now at 1. fold st0.
  destruct (raw_timestamp event_data) as [|text|text d].
  - destruct (Hloop (clock st (reads st))) as (st' & E & G).
    exists st'. split; [|done].
    unfold bind at 1. unfold ret at 1. unfold bind at 1. unfold gets at 1.
    by rewrite E.
  - eexists. split.
    + unfold bind, raise, log, modify. reflexivity.
    + eapply grows_trans; [apply (grows_set_reads (S (reads st)) st)|].
      apply grows_emit_log.
  - destruct (Hloop d) as (st' & E & G).
    exists st'. split; [|done].
    unfold bind at 1. unfold ret at 1. unfold bind at 1. unfold gets at 1.
    by rewrite E.
Qed.

(** X12. Whatever the record and whatever the collaborators do, processing a
    record returns normally; it leaves the registry, the configuration and
    the scripts of the environment as they were, removes no incident id
    from the store and makes no search. *)
Theorem process_security_event_never_raises event_data st :
  ∃ st', process_security_event event_data st = (Return tt, st')
         ∧ frame_env st st'
         ∧ dom (incidents st) ⊆ dom (incidents st')
         ∧ polls (trace st') = polls (trace st).
Proof.
  destruct (process_security_event_grows event_data st) as (st' & E & [G1 G2 _ G4]).
  by exists st'.
Qed.

Lemma process_hits_grows hits st :
  ∃ st', for_ hits (λ _ hit, process_security_event hit) tt st = (Return tt, st')
         ∧ grows st st'.
Proof.
  revert st. induction hits as [|hit hits IH]; intros st; cbn [for_].
  - exists st. split; [done | apply grows_refl].
  - unfold bind.
    destruct (process_security_event_grows hit st) as (st1 & E1 & G1).
    rewrite E1. destruct (IH st1) as (st2 & E2 & G2).
    exists st2. split; [done | by eapply grows_trans].
Qed.

Lemma trace_emit e st : trace (emit e st) = trace st ++ [e].
Proof. reflexivity. Qed.

Lemma polls_emit e st : polls (trace (emit e st)) = polls (trace st) + polls [e].
Proof. by rewrite trace_emit, polls_app. Qed.

(** What a turn of the loop leaves behind. *)
Lemma monitor_tick_grows st :
  ∃ st', monitor_tick st = (Return tt, st')
         ∧ playbooks st' = playbooks st
         ∧ searches st' = tail (searches st)
         ∧ dom (incidents st) ⊆ dom (incidents st')
         ∧ (store_ok (incidents st) → store_ok (incidents st'))
         ∧ polls (trace st') = S (polls (trace st))
         ∧ last (trace st') = Some (Slept (tick_sleep (searches st))).
Proof.
  destruct (searches st) as [|[e|hits] rest] eqn:Hs.
  - exists (emit (Slept 10) (emit (Called (EsSearch monitored_indices) None) st)).
    split; [|split; [|split; [|split; [|split; [|split]]]]].
    + unfold monitor_tick, try_except. unfold bind at 1. unfold es_search.
      rewrite Hs. reflexivity.
    + reflexivity.
    + exact Hs.
    + done.
    + done.
    + rewrite !polls_emit. change (polls [Slept 10]) with 0.
      change (polls [Called (EsSearch monitored_indices) None]) with 1. lia.
    + rewrite trace_emit. apply last_snoc.
  - exists (emit (Slept 30)
              (emit (Logged ERROR ("Error monitoring security events: " +:+ e))
                 (emit (Called (EsSearch monitored_indices) (Some e))
                    (set_searches rest st)))).
    split; [|split; [|split; [|split; [|split; [|split]]]]].
    + unfold monitor_tick, try_except. unfold bind at 1. unfold es_search.
      rewrite Hs. reflexivity.
    + reflexivity.
    + reflexivity.
    + done.
    + done.
    + rewrite !polls_emit. change (polls [Slept 30]) with 0.
      change (polls [Logged ERROR ("Error monitoring security events: " +:+ e)]) with 0.
      change (polls [Called (EsSearch monitored_indices) (Some e)]) with 1.
      change (trace (set_searches rest st)) with (trace st). lia.
    + rewrite trace_emit. apply last_snoc.
  - set (st0 := emit (Called (EsSearch monitored_indices) None) (set_searches rest st)).
    destruct (process_hits_grows hits st0) as (st1 & E1 & [G1 G2 G3 G4]).
    exists (emit (Slept 10) st1).
    split; [|split; [|split; [|split; [|split; [|split]]]]].
    + unfold monitor_tick, try_except. unfold bind at 1. unfold es_search.
      rewrite Hs. fold st0. unfold bind at 1. by rewrite E1.
    + change (playbooks st1 = playbooks st). by rewrite (fe_playbooks _ _ G1).
    + change (searches st1 = rest). by rewrite (fe_searches _ _ G1).
    + exact G2.
    + exact G3.
    + rewrite polls_emit, G4. subst st0. rewrite polls_emit.
      change (polls [Slept 10]) with 0.
      change (polls [Called (EsSearch monitored_indices) None]) with 1.
      change (trace (set_searches rest st)) with (trace st). lia.
    + rewrite trace_emit. apply last_snoc.
Qed.

(** X13. A turn of the monitoring loop never raises: it makes one search and
    ends by sleeping, 10 seconds after a search that answered and 30
    seconds after one that failed. *)
Theorem monitor_tick_always_sleeps st :
  ∃ st', monitor_tick st = (Return tt, st')
         ∧ polls (trace st') = S (polls (trace st))
         ∧ last (trace st') = Some (Slept (tick_sleep (searches st))).
Proof.
  destruct (monitor_tick_grows st) as (st' & E & _ & _ & _ & _ & P & L).
  by exists st'.
Qed.

Lemma monitor_grows n st :
  ∃ st', monitor_security_events n st = (Return tt, st')
         ∧ playbooks st' = playbooks st
         ∧ dom (incidents st) ⊆ dom (incidents st')
         ∧ (store_ok (incidents st) → store_ok (incidents st'))
         ∧ polls (trace st') = polls (trace st) + n.
Proof.
  revert st. induction n as [|n IH]; intros st; cbn [monitor_security_events].
  - exists st. split; [done|]. split; [done|]. split; [done|]. split; [done | lia].
  - destruct (monitor_tick_grows st) as (st1 & E1 & P1 & _ & D1 & O1 & C1 & _).
    destruct (IH st1) as (st2 & E2 & P2 & D2 & O2 & C2).
    exists st2. unfold bind. rewrite E1.
    split; [done|]. split; [congruence|]. split; [set_solver|].
    split; [auto | lia].
Qed.

(** X14. The monitoring loop does not stop on a failure: whatever the searches,
    the records and the collaborators do, [n] turns return normally after
    exactly [n] searches, with the registry as it was and every incident
    id of the store still there. *)
Theorem monitor_never_stops n st :
  ∃ st', monitor_security_events n st = (Return tt, st')
         ∧ polls (trace st') = polls (trace st) + n
         ∧ playbooks st' = playbooks st
         ∧ dom (incidents st) ⊆ dom (incidents st').
Proof.
  destruct (monitor_grows n st) as (st' & E & P & D & _ & C).
  by exists st'.
Qed.

(** X15. The store keeps its shape under monitoring: when every incident is
    filed under its own id, active and not resolved, the same holds after
    any number of turns; the monitor never resolves an incident. *)
Theorem monitor_keeps_store_ok n st :
  store_ok (incidents st) →
  ∃ st', monitor_security_events n st = (Return tt, st')
         ∧ store_ok (incidents st').
Proof.
  intros H. destruct (monitor_grows n st) as (st' & E & _ & _ & O & _).
  exists st'. auto.
Qed.

Lemma monitor_keeps_store_ok_witness :
  store_ok (incidents overlapping_polls)
  ∧ ∃ st', monitor_security_events 2 overlapping_polls = (Return tt, st')
           ∧ store_ok (incidents st').
Proof.
  assert (store_ok (incidents overlapping_polls)) as H by apply map_Forall_empty.
  split; [exact H|].
  apply (monitor_keeps_store_ok 2 overlapping_polls H).
Defined.

Lemma action_targets_env st st' event action :
  frame_env st st' → action_targets st' event action = action_targets st event action.
Proof. intros F. unfold action_targets. by rewrite (fe_slack _ _ F). Qed.

Lemma dispatch_targets_env st st' event registry :
  frame_env st st' → dispatch_targets st' event registry = dispatch_targets st event registry.
Proof.
  intros F. unfold dispatch_targets. apply flat_map_ext. intros p.
  f_equal. apply flat_map_ext. intros a. by apply action_targets_env.
Qed.

Lemma dispatch_in_order event registry st :
  ∃ st',
    for_ registry
      (λ _ playbook, if event_matches_playbook event playbook
                     then execute_playbook event playbook else ret tt) tt st
    = (Return tt, st')
    ∧ frame_env st st'
    ∧ targets (trace st') = targets (trace st) ++ dispatch_targets st event registry.
Proof.
  revert st. induction registry as [|p registry IH]; intros st.
  - exists st. split; [done|]. split; [apply frame_env_refl|].
    unfold dispatch_targets. cbn. by rewrite app_nil_r.
  - cbn [for_]. unfold bind, dispatch_targets. cbn [List.filter].
    destruct (event_matches_playbook event p).
    + destruct (execute_playbook_runs event p st) as (st1 & created & E1 & F1 & T1).
      assert (frame_env st st1) as Fe by (destruct F1; by constructor).
      rewrite E1. destruct (IH st1) as (st2 & E2 & F2 & T2).
      exists st2. split; [done|]. split; [by eapply frame_env_trans|].
      rewrite T2, T1, (dispatch_targets_env st st1 event registry Fe).
      cbn [flat_map]. unfold dispatch_targets. by rewrite <- !app_assoc.
    + cbn. apply IH.
Qed.

(** X16. The playbooks a record matches are dispatched one after the other in
    the order of the registry: the calls made while processing the record
    are, for each matching playbook in that order, the calls of its
    actions followed by the indexing of its incident, and nothing else. *)
Theorem process_dispatches_in_registry_order event_data st :
  well_timed event_data = true →
  ∃ st', process_security_event event_data st = (Return tt, st')
         ∧ targets (trace st')
           = targets (trace st)
             ++ dispatch_targets st (normalize event_data (mk_datetime 0 0 0 0 0 0 0))
                  (playbooks st).
Proof.
  unfold well_timed. intros Hts.
  set (st0 := set_reads (S (reads st)) st).
  assert (∀ ts,
    ∃ st', for_ (playbooks st0)
             (λ _ playbook, if event_matches_playbook (normalize event_data ts) playbook
                            then execute_playbook (normalize event_data ts) playbook
                            else ret tt) tt st0 = (Return tt, st')
           ∧ targets (trace st')
             = targets (trace st)
               ++ dispatch_targets st
                    (normalize event_data (mk_datetime 0 0 0 0 0 0 0)) (playbooks st))
    as Hloop.
  { intros ts.
    destruct (dispatch_in_order (normalize event_data ts) (playbooks st0) st0)
      as (st' & E & _ & T).
    exists st'. split; [done|]. exact T. }
  unfold process_security_event, try_except.
  unfold bind at 1. unfold now at 1. fold st0.
  destruct (raw_timestamp event_data) as [|text|text d]; [|done|].
  - destruct (Hloop (clock st (reads st))) as (st' & E & T).
    exists st'. split; [|done].
    unfold bind at 1. unfold ret at 1. unfold bind at 1. unfold gets at 1.
    by rewrite E.
  - destruct (Hloop d) as (st' & E & T).
    exists st'. split; [|done].
    unfold bind at 1. unfold ret at 1. unfold bind at 1. unfold gets at 1.
    by rewrite E.
Qed.

Lemma process_dispatches_in_registry_order_witness :
  well_timed sql_raw = true
  ∧ ∃ st', process_security_event sql_raw two_playbooks = (Return tt, st')
           ∧ targets (trace st')
             = [Index "security-blocklist"; Index "security-incidents";
                Index "security-incidents"].
Proof.
  split; [reflexivity|].
  destruct (process_dispatches_in_registry_order sql_raw two_playbooks eq_refl)
    as (st' & E & T).
  exists st'. split; [exact E | exact T].
Defined.

(** X17. An event submitted by hand loses its severity, its description and
    its user on the way: the queued task reads keys the dictionary of the
    event does not have, so the event is processed with severity [info],
    an empty description and no user, and only playbooks whose threshold
    is [info] can be dispatched for it. *)
Theorem manual_response_downgrades_event event st :
  (∀ ts, let seen := normalize (event_dict event) ts in
         severity seen = "info" ∧ description seen = EmptyString ∧ user seen = None
         ∧ event_type seen = event_type event ∧ source_ip seen = source_ip event
         ∧ tags seen = tags event)
  ∧ (∀ playbook, playbook ∈ matching_playbooks (event_dict event) (playbooks st) →
                 severity_threshold playbook = "info")
  ∧ ∃ st', manual_response event st
           = (Return ("response initiated", event_type event), st')
           ∧ stored_incidents (trace st')
             = stored_incidents (trace st)
               + length (matching_playbooks (event_dict event) (playbooks st)).
Proof.
  split; [done|]. split.
  - intros p Hin. unfold matching_playbooks in Hin.
    apply list_elem_of_In, List.filter_In in Hin as [_ Hm].
    by eapply info_event_matches; [|exact Hm].
  - destruct (process_security_event_stores (event_dict event) st eq_refl)
      as (st' & E & _ & S).
    exists st'. split; [|done]. unfold manual_response, bind. by rewrite E.
Qed.

End MonitorFacts.

(** ** Playbook registry *)

Section RegistryFacts.

Import Scenario.

(** The loop over the directory, for any listing: it ends normally or at
    the first malformed playbook file, with the playbooks read so far
    appended to the registry. *)
Lemma load_loop files st :
  ∃ r, for_ files (λ _ f, load_file f) tt st
       = (r, set_playbooks (playbooks st ++ loaded_prefix files) st)
       ∧ (r = Return tt ∨ ∃ e, r = Raise e).
Proof.
  revert st. induction files as [|f files IH]; intros st.
  - exists (Return tt). split; [|by left].
    destruct st. cbn. by rewrite app_nil_r.
  - cbn [for_ loaded_prefix]. unfold bind. unfold load_file at 1.
    destruct (is_playbook_file f); [destruct (content f) as [e|p]|].
    + exists (Raise e). split; [|right; by exists e].
      unfold raise. destruct st. cbn. by rewrite app_nil_r.
    + unfold modify. cbv beta iota.
      destruct (IH (append_playbook p st)) as (r & E & Hr).
      exists r. split; [|done]. rewrite E. f_equal.
      destruct st. cbn. by rewrite <- app_assoc.
    + unfold ret. cbv beta iota. apply IH.
Qed.

(** X18. Loading never raises, whatever the directory holds and whether it
    exists or not: the playbooks already registered are kept, the
    playbooks of the playbook files listed before the first malformed one
    are appended in the order of the listing, the store of incidents is
    not touched, no collaborator is called and one line is logged. *)
Theorem load_playbooks_never_raises st :
  ∃ st', load_playbooks st = (Return tt, st')
         ∧ playbooks st' = playbooks st ++ loaded_prefix (default [] (playbooks_dir st))
         ∧ incidents st' = incidents st
         ∧ targets (trace st') = targets (trace st)
         ∧ length (log_lines (trace st')) = S (length (log_lines (trace st))).
Proof.
  assert (∀ level msg s,
    targets (trace (emit (Logged level msg) s)) = targets (trace s)
    ∧ length (log_lines (trace (emit (Logged level msg) s)))
      = S (length (log_lines (trace s)))) as Hlog.
  { intros. rewrite trace_emit, targets_app. unfold log_lines.
    rewrite flat_map_app, length_app. cbn. rewrite app_nil_r. split; [done | lia]. }
  unfold load_playbooks, try_except. unfold bind at 1. unfold gets at 1.
  destruct (playbooks_dir st) as [files|] eqn:Hdir; cbn [default].
  - destruct (load_loop files st) as (r & E & [-> | [e ->]]).
    + unfold bind at 1. rewrite E. unfold bind, gets, log, modify.
      eexists. split; [reflexivity|].
      destruct (Hlog INFO
                  ("Loaded " +:+ pretty (length (playbooks st ++ loaded_prefix files))
                   +:+ " security playbooks")
                  (set_playbooks (playbooks st ++ loaded_prefix files) st)) as [T L].
      repeat split; done.
    + unfold bind at 1. rewrite E. unfold log, modify.
      eexists. split; [reflexivity|].
      destruct (Hlog ERROR ("Failed to load playbooks: " +:+ e)
                  (set_playbooks (playbooks st ++ loaded_prefix files) st)) as [T L].
      repeat split; done.
  - unfold bind, ret, gets, log, modify.
    eexists. split; [reflexivity|].
    destruct (Hlog INFO
                ("Loaded " +:+ pretty (length (playbooks st)) +:+ " security playbooks")
                st) as [T L].
    repeat split; try done. cbn. by rewrite app_nil_r.
Qed.

(** X19. When no playbook file of the directory is malformed, every playbook
    file is loaded, in the order of the listing and after the playbooks
    already registered, the files that are no playbook files are passed
    over whatever they hold, and the new size of the registry is logged.
    A directory that does not exist counts as empty. *)
Theorem load_playbooks_loads_all st :
  let files := default [] (playbooks_dir st) in
  forallb (λ f, negb (malformed f)) files = true →
  ∃ st', load_playbooks st = (Return tt, st')
         ∧ playbooks st' = playbooks st ++ well_formed_playbooks files
         ∧ trace st'
           = trace st
             ++ [Logged INFO
                   ("Loaded "
                    +:+ pretty (length (playbooks st)
                                + length (well_formed_playbooks files))
                    +:+ " security playbooks")].
Proof.
  intros files H. subst files.
  unfold load_playbooks, try_except. unfold bind at 1. unfold gets at 1.
  destruct (playbooks_dir st) as [files|] eqn:Hdir; cbn [default] in *.
  - unfold bind at 1. rewrite (load_well_formed files st H).
    unfold bind, gets, log, modify.
    eexists. split; [reflexivity|]. split; [done|].
    cbn. by rewrite length_app.
  - unfold bind, ret, gets, log, modify.
    eexists. split; [reflexivity|]. cbn.
    rewrite app_nil_r, Nat.add_0_r. done.
Qed.

Lemma load_playbooks_loads_all_witness :
  forallb (λ f, negb (malformed f)) (default [] (playbooks_dir mixed_directory)) = true
  ∧ malformed notes_file = false
  ∧ ∃ st', load_playbooks mixed_directory = (Return tt, st')
           ∧ playbooks st' = [alert_playbook; sql_playbook].
Proof.
  split; [reflexivity|]. split; [reflexivity|].
  destruct (load_playbooks_loads_all mixed_directory eq_refl) as (st' & E & P & _).
  exists st'. split; [exact E | exact P].
Defined.

End RegistryFacts.
